(** * vaultscout: the generated end-to-end UI scripts (testsprite_tests)

    The four scripts TC005, TC014, TC016 and TC020 each define one
    coroutine [run_test] that drives a headless browser through the
    Playwright client library.  The library and the application under
    test are outside the repository: they are modelled as a [world], an
    oracle that decides, from the events seen so far, whether a call
    raises and what the page and frame lists hold.  Each [run_test] is a
    program in a state-and-exception monad over that world; the state
    holds the three variables bound before the [try] and the log of the
    calls issued. *)

From Stdlib Require Import List String ZArith Bool Lia.
Import ListNotations.
Local Open Scope string_scope.
Local Open Scope Z_scope.
Local Open Scope list_scope.

(** ** Exceptions *)

Inductive exn : Type :=
| Error (message : string)           (* playwright.async_api.Error *)
| TimeoutError (message : string)    (* async_api.TimeoutError, a subclass of Error *)
| AssertionError (message : string)
| IndexError
| OtherException (class_name : string).

(** [except async_api.Error] *)
Definition isinstance_Error (e : exn) : bool :=
  match e with
  | Error _ | TimeoutError _ => true
  | _ => false
  end.

(** [except AssertionError] *)
Definition isinstance_AssertionError (e : exn) : bool :=
  match e with
  | AssertionError _ => true
  | _ => false
  end.

(** ** Library objects and calls *)

Definition page_id := nat.
Definition frame_id := nat.

Inductive resource : Type := Playwright | Browser | BrowserContext.

Inductive handle : Type := Handle (r : resource).

Inductive pick : Type := Nth (n : Z) | First.

Record locator : Type := mkLocator
  { loc_page : page_id; loc_selector : string; loc_pick : option pick }.

Inductive op : Type :=
| StartPlaywright                                   (* async_playwright().start() *)
| Launch (headless : bool) (args : list string)     (* pw.chromium.launch *)
| NewContext                                        (* browser.new_context() *)
| SetDefaultTimeout (ms : Z)                        (* context.set_default_timeout *)
| NewPage                                           (* context.new_page() *)
| Goto (p : page_id) (url wait_until : string) (timeout : Z)
| PageWaitForLoadState (p : page_id) (st : string) (timeout : Z)
| FrameWaitForLoadState (f : frame_id) (st : string) (timeout : Z)
| WaitForTimeout (p : page_id) (ms : Z)             (* page.wait_for_timeout *)
| Click (l : locator) (timeout : Z)
| Fill (l : locator) (value : string)
| MouseWheel (p : page_id) (dx dy : Z)
| ExpectVisible (l : locator) (timeout : Z)         (* expect(l).to_be_visible *)
| Sleep (seconds : Z)                               (* asyncio.sleep *)
| ContextClose
| BrowserClose
| PlaywrightStop.

Inductive event : Type :=
| Called (o : op) (r : option exn)     (* a call and the exception it raised, if any *)
| PagesRead (ps : list page_id)        (* context.pages *)
| FramesRead (p : page_id) (fs : list frame_id).   (* page.frames *)

(** The world: the library, the browser and the application under test.
    Every answer may depend on all the events so far (newest first). *)
Record world : Type := mkWorld
  { raises : list event -> op -> option exn;
    fresh_page : list event -> page_id;
    pages_of : list event -> list page_id;
    frames_of : list event -> page_id -> list frame_id }.

(** ** Program state: the variables bound before [try], and the log *)

Record state : Type := mkState
  { pw : option handle;
    browser : option handle;
    context : option handle;
    log : list event }.

Definition initial : state :=
  {| pw := None; browser := None; context := None; log := [] |}.

Definition record (e : event) (st : state) : state :=
  {| pw := pw st; browser := browser st; context := context st;
     log := e :: log st |}.

Inductive result (A : Type) : Type :=
| Ok (a : A)
| Raised (e : exn).
Arguments Ok {A} a.
Arguments Raised {A} e.

Definition is_ok {A} (r : result A) : bool :=
  match r with Ok _ => true | Raised _ => false end.

(** ** The monad *)

Definition M (A : Type) : Type := world -> state -> result A * state.

Definition ret {A} (a : A) : M A := fun _ st => (Ok a, st).

Definition bind {A B} (m : M A) (f : A -> M B) : M B :=
  fun w st =>
    match m w st with
    | (Ok a, st1) => f a w st1
    | (Raised e, st1) => (Raised e, st1)
    end.

Definition raise {A} (e : exn) : M A := fun _ st => (Raised e, st).

Declare Scope script_scope.
Delimit Scope script_scope with script.
Notation "x <- c ;; k" := (bind c (fun x => k))
  (at level 100, c at next level, right associativity) : script_scope.
Notation "c ;; k" := (bind c (fun _ => k))
  (at level 100, right associativity) : script_scope.
Local Open Scope script_scope.

(** [try: body except C: handler] where [catches] is [isinstance(_, C)] *)
Definition try_except {A} (body : M A) (catches : exn -> bool)
    (handler : exn -> M A) : M A :=
  fun w st =>
    match body w st with
    | (Ok a, st1) => (Ok a, st1)
    | (Raised e, st1) =>
        if catches e then handler e w st1 else (Raised e, st1)
    end.

(** [try: body finally: fin]: [fin] always runs; an exception it raises
    replaces the outcome of [body]. *)
Definition try_finally {A} (body : M A) (fin : M unit) : M A :=
  fun w st =>
    match body w st with
    | (r, st1) =>
        match fin w st1 with
        | (Ok _, st2) => (r, st2)
        | (Raised e, st2) => (Raised e, st2)
        end
    end.

(** [for x in xs: body x] *)
Fixpoint for_each {A} (xs : list A) (body : A -> M unit) : M unit :=
  match xs with
  | [] => ret tt
  | x :: rest => body x ;; for_each rest body
  end.

(** A library call: the world decides whether it raises; the call is logged. *)
Definition call (o : op) : M unit :=
  fun w st =>
    let r := raises w (log st) o in
    (match r with None => Ok tt | Some e => Raised e end,
     record (Called o r) st).

(** Assignments to the three variables bound before [try]. *)
Definition assign_pw (h : handle) : M unit :=
  fun _ st => (Ok tt, {| pw := Some h; browser := browser st;
                         context := context st; log := log st |}).
Definition assign_browser (h : handle) : M unit :=
  fun _ st => (Ok tt, {| pw := pw st; browser := Some h;
                         context := context st; log := log st |}).
Definition assign_context (h : handle) : M unit :=
  fun _ st => (Ok tt, {| pw := pw st; browser := browser st;
                         context := Some h; log := log st |}).
Definition read {A} (var : state -> A) : M A := fun _ st => (Ok (var st), st).

(** ** The client library's interface, as the scripts use it *)

Definition async_playwright_start : M handle :=
  call StartPlaywright ;; ret (Handle Playwright).

Definition chromium_launch (pw : handle) (headless : bool) (args : list string)
  : M handle :=
  call (Launch headless args) ;; ret (Handle Browser).

Definition new_context (browser : handle) : M handle :=
  call NewContext ;; ret (Handle BrowserContext).

Definition set_default_timeout (context : handle) (ms : Z) : M unit :=
  call (SetDefaultTimeout ms).

Definition new_page (context : handle) : M page_id :=
  fun w st =>
    match call NewPage w st with
    | (Ok _, st1) => (Ok (fresh_page w (log st)), st1)
    | (Raised e, st1) => (Raised e, st1)
    end.

Definition goto (page : page_id) (url wait_until : string) (timeout : Z) : M unit :=
  call (Goto page url wait_until timeout).

Definition page_wait_for_load_state (page : page_id) (st : string) (timeout : Z)
  : M unit :=
  call (PageWaitForLoadState page st timeout).

Definition frame_wait_for_load_state (frame : frame_id) (st : string) (timeout : Z)
  : M unit :=
  call (FrameWaitForLoadState frame st timeout).

(** [page.frames] *)
Definition page_frames (page : page_id) : M (list frame_id) :=
  fun w st =>
    let fs := frames_of w (log st) page in
    (Ok fs, record (FramesRead page fs) st).

(** [context.pages] *)
Definition context_pages (context : handle) : M (list page_id) :=
  fun w st =>
    let ps := pages_of w (log st) in
    (Ok ps, record (PagesRead ps) st).

(** [xs[-1]]: the last element; IndexError on the empty list. *)
Definition subscript_last {A} (xs : list A) : M A :=
  match rev xs with
  | x :: _ => ret x
  | [] => raise IndexError
  end.

Definition locate (frame : page_id) (sel : string) : locator :=
  {| loc_page := frame; loc_selector := sel; loc_pick := None |}.
Definition nth_ (l : locator) (n : Z) : locator :=
  {| loc_page := loc_page l; loc_selector := loc_selector l;
     loc_pick := Some (Nth n) |}.
Definition first (l : locator) : locator :=
  {| loc_page := loc_page l; loc_selector := loc_selector l;
     loc_pick := Some First |}.

Definition wait_for_timeout (page : page_id) (ms : Z) : M unit :=
  call (WaitForTimeout page ms).
Definition click (elem : locator) (timeout : Z) : M unit :=
  call (Click elem timeout).
Definition fill (elem : locator) (value : string) : M unit :=
  call (Fill elem value).
Definition mouse_wheel (page : page_id) (dx dy : Z) : M unit :=
  call (MouseWheel page dx dy).
Definition expect_to_be_visible (l : locator) (timeout : Z) : M unit :=
  call (ExpectVisible l timeout).
Definition asyncio_sleep (seconds : Z) : M unit :=
  call (Sleep seconds).

Definition context_close (context : handle) : M unit := call ContextClose.
Definition browser_close (browser : handle) : M unit := call BrowserClose.
Definition pw_stop (pw : handle) : M unit := call PlaywrightStop.

(** [if v: body v] for a variable that is None or a library object. *)
Definition if_set (v : option handle) (body : handle -> M unit) : M unit :=
  match v with
  | Some h => body h
  | None => ret tt
  end.

Definition launch_args : list string :=
  ["--window-size=1280,720"; "--disable-dev-shm-usage"; "--ipc=host";
   "--single-process"].

(** ** The four scripts

    Each definition follows its [run_test] statement by statement; the
    line numbers are those of the script. *)

(** TC005: [run_test] *)
Definition run_test_TC005 : M unit :=
  try_finally
    (pw' <- async_playwright_start ;; assign_pw pw' ;;
     browser' <- chromium_launch pw' true launch_args ;; assign_browser browser' ;;
     context' <- new_context browser' ;; assign_context context' ;;
     set_default_timeout context' 5000 ;;
     page <- new_page context' ;;
     goto page "http://localhost:5322" "commit" 10000 ;;
     try_except (page_wait_for_load_state page "domcontentloaded" 3000)
       isinstance_Error (fun _ => ret tt) ;;
     frames <- page_frames page ;;
     for_each frames (fun frame =>
       try_except (frame_wait_for_load_state frame "domcontentloaded" 3000)
         isinstance_Error (fun _ => ret tt)) ;;
     pages <- context_pages context' ;; frame <- subscript_last pages ;;   (* l.50 *)
     let elem := nth_ (locate frame "xpath=html/body/div[2]/header/div/div/a") 0 in
     wait_for_timeout page 3000 ;; click elem 5000 ;;
     pages <- context_pages context' ;; frame <- subscript_last pages ;;   (* l.57 *)
     let elem := nth_ (locate frame "xpath=html/body/div[2]/main/div/div/div/div/div/div[2]/div[2]/div/form/div/div[2]/div/div/input") 0 in
     wait_for_timeout page 3000 ;; fill elem "jane.smith@example.com" ;;
     pages <- context_pages context' ;; frame <- subscript_last pages ;;   (* l.63 *)
     let elem := nth_ (locate frame "xpath=html/body/div[2]/main/div/div/div/div/div/div[2]/div[2]/div/form/div[2]/div[2]/div/div/input") 0 in
     wait_for_timeout page 3000 ;; fill elem "MySecurePassword123!" ;;
     pages <- context_pages context' ;; frame <- subscript_last pages ;;   (* l.69 *)
     let elem := nth_ (locate frame "xpath=html/body/div[2]/main/div/div/div/div/div/div[2]/div[2]/div/form/button") 0 in
     wait_for_timeout page 3000 ;; click elem 5000 ;;
     pages <- context_pages context' ;; frame <- subscript_last pages ;;   (* l.76 *)
     let elem := nth_ (locate frame "xpath=html/body/div[2]/header/div/nav/a[2]") 0 in
     wait_for_timeout page 3000 ;; click elem 5000 ;;
     pages <- context_pages context' ;; frame <- subscript_last pages ;;   (* l.83 *)
     try_except
       (expect_to_be_visible (first (locate frame "text=Document processing completed successfully")) 1000)
       isinstance_AssertionError
       (fun _ => raise (AssertionError
          "Test case failed: Uploaded documents were not processed correctly. Text extraction, normalization, chunking, or content hash generation did not meet the expected criteria as per the test plan.")) ;;
     asyncio_sleep 5)
    (c <- read context ;; if_set c context_close ;;
     b <- read browser ;; if_set b browser_close ;;
     p <- read pw ;; if_set p pw_stop).

(** TC014: [run_test] *)
Definition run_test_TC014 : M unit :=
  try_finally
    (pw' <- async_playwright_start ;; assign_pw pw' ;;
     browser' <- chromium_launch pw' true launch_args ;; assign_browser browser' ;;
     context' <- new_context browser' ;; assign_context context' ;;
     set_default_timeout context' 5000 ;;
     page <- new_page context' ;;
     goto page "http://localhost:5322" "commit" 10000 ;;
     try_except (page_wait_for_load_state page "domcontentloaded" 3000)
       isinstance_Error (fun _ => ret tt) ;;
     frames <- page_frames page ;;
     for_each frames (fun frame =>
       try_except (frame_wait_for_load_state frame "domcontentloaded" 3000)
         isinstance_Error (fun _ => ret tt)) ;;
     pages <- context_pages context' ;; frame <- subscript_last pages ;;   (* l.50 *)
     let elem := nth_ (locate frame "xpath=html/body/div[2]/header/div/div/a") 0 in
     wait_for_timeout page 3000 ;; click elem 5000 ;;
     pages <- context_pages context' ;; frame <- subscript_last pages ;;   (* l.57 *)
     let elem := nth_ (locate frame "xpath=html/body/div[2]/main/div/div/div/div/div/div[2]/div[2]/div/form/div/div[2]/div/div/input") 0 in
     wait_for_timeout page 3000 ;; fill elem "jane.smith@example.com" ;;
     pages <- context_pages context' ;; frame <- subscript_last pages ;;   (* l.63 *)
     let elem := nth_ (locate frame "xpath=html/body/div[2]/main/div/div/div/div/div/div[2]/div[2]/div/form/div[2]/div[2]/div/div/input") 0 in
     wait_for_timeout page 3000 ;; fill elem "MySecurePassword123!" ;;
     pages <- context_pages context' ;; frame <- subscript_last pages ;;   (* l.69 *)
     let elem := nth_ (locate frame "xpath=html/body/div[2]/main/div/div/div/div/div/div[2]/div[2]/div/form/button") 0 in
     wait_for_timeout page 3000 ;; click elem 5000 ;;
     pages <- context_pages context' ;; frame <- subscript_last pages ;;   (* l.76 *)
     let elem := nth_ (locate frame "xpath=html/body/div[2]/header/div/div[2]/div[2]/button") 0 in
     wait_for_timeout page 3000 ;; click elem 5000 ;;
     pages <- context_pages context' ;; frame <- subscript_last pages ;;   (* l.83 *)
     let elem := nth_ (locate frame "xpath=html/body/div[2]/main/div/div/div/div/div/div[2]/div[2]/div/form/div/div[2]/div/div/input") 0 in
     wait_for_timeout page 3000 ;; fill elem "admin@example.com" ;;
     pages <- context_pages context' ;; frame <- subscript_last pages ;;   (* l.89 *)
     let elem := nth_ (locate frame "xpath=html/body/div[2]/main/div/div/div/div/div/div[2]/div[2]/div/form/div[2]/div[2]/div/div/input") 0 in
     wait_for_timeout page 3000 ;; fill elem "AdminPassword!2025" ;;
     pages <- context_pages context' ;; frame <- subscript_last pages ;;   (* l.95 *)
     let elem := nth_ (locate frame "xpath=html/body/div[2]/main/div/div/div/div/div/div[2]/div[2]/div/form/button") 0 in
     wait_for_timeout page 3000 ;; click elem 5000 ;;
     pages <- context_pages context' ;; frame <- subscript_last pages ;;   (* l.102 *)
     let elem := nth_ (locate frame "xpath=html/body/div[2]/main/div/div/div/div/div/div[2]/div[2]/div/form/div/div[2]/div/div/input") 0 in
     wait_for_timeout page 3000 ;; fill elem "admin@example.com" ;;
     pages <- context_pages context' ;; frame <- subscript_last pages ;;   (* l.108 *)
     let elem := nth_ (locate frame "xpath=html/body/div[2]/main/div/div/div/div/div/div[2]/div[2]/div/form/div[2]/div[2]/div/div/input") 0 in
     wait_for_timeout page 3000 ;; fill elem "AdminPassword!2025" ;;
     pages <- context_pages context' ;; frame <- subscript_last pages ;;   (* l.114 *)
     let elem := nth_ (locate frame "xpath=html/body/div[2]/main/div/div/div/div/div/div[2]/div[2]/div/form/button") 0 in
     wait_for_timeout page 3000 ;; click elem 5000 ;;
     pages <- context_pages context' ;; frame <- subscript_last pages ;;   (* l.121 *)
     expect_to_be_visible (first (locate frame "text=Welcome back")) 30000 ;;
     expect_to_be_visible (first (locate frame "text=Access your knowledge base and search platform")) 30000 ;;
     expect_to_be_visible (first (locate frame "text=Continue")) 30000 ;;
     expect_to_be_visible (first (locate frame "text=By continuing, you agree to ourTermsandPrivacy Policy.")) 30000 ;;
     expect_to_be_visible (first (locate frame "text=New to Quodo?Create an account")) 30000 ;;
     expect_to_be_visible (first (locate frame "text=Secure access to your data")) 30000 ;;
     expect_to_be_visible (first (locate frame "text=Enterprise-grade search platform with instant document retrieval and team collaboration.")) 30000 ;;
     expect_to_be_visible (first (locate frame "text=Lightning-fast full-text search")) 30000 ;;
     expect_to_be_visible (first (locate frame "text=Advanced document preview")) 30000 ;;
     expect_to_be_visible (first (locate frame "text=Team sharing and permissions")) 30000 ;;
     asyncio_sleep 5)
    (c <- read context ;; if_set c context_close ;;
     b <- read browser ;; if_set b browser_close ;;
     p <- read pw ;; if_set p pw_stop).

(** TC016: [run_test] *)
Definition run_test_TC016 : M unit :=
  try_finally
    (pw' <- async_playwright_start ;; assign_pw pw' ;;
     browser' <- chromium_launch pw' true launch_args ;; assign_browser browser' ;;
     context' <- new_context browser' ;; assign_context context' ;;
     set_default_timeout context' 5000 ;;
     page <- new_page context' ;;
     goto page "http://localhost:5322" "commit" 10000 ;;
     try_except (page_wait_for_load_state page "domcontentloaded" 3000)
       isinstance_Error (fun _ => ret tt) ;;
     frames <- page_frames page ;;
     for_each frames (fun frame =>
       try_except (frame_wait_for_load_state frame "domcontentloaded" 3000)
         isinstance_Error (fun _ => ret tt)) ;;
     pages <- context_pages context' ;; frame <- subscript_last pages ;;   (* l.50 *)
     let elem := nth_ (locate frame "xpath=html/body/div[2]/header/div/div/a") 0 in
     wait_for_timeout page 3000 ;; click elem 5000 ;;
     pages <- context_pages context' ;; frame <- subscript_last pages ;;   (* l.57 *)
     let elem := nth_ (locate frame "xpath=html/body/div[2]/main/div/div/div/div/div/div[2]/div[2]/div/form/div/div[2]/div/div/input") 0 in
     wait_for_timeout page 3000 ;; fill elem "jane.smith@example.com" ;;
     pages <- context_pages context' ;; frame <- subscript_last pages ;;   (* l.63 *)
     let elem := nth_ (locate frame "xpath=html/body/div[2]/main/div/div/div/div/div/div[2]/div[2]/div/form/div[2]/div[2]/div/div/input") 0 in
     wait_for_timeout page 3000 ;; fill elem "MySecurePassword123!" ;;
     pages <- context_pages context' ;; frame <- subscript_last pages ;;   (* l.69 *)
     let elem := nth_ (locate frame "xpath=html/body/div[2]/main/div/div/div/div/div/div[2]/div[2]/div/form/button") 0 in
     wait_for_timeout page 3000 ;; click elem 5000 ;;
     mouse_wheel page 0 300 ;;   (* l.76 *)
     pages <- context_pages context' ;; frame <- subscript_last pages ;;   (* l.80 *)
     let elem := nth_ (locate frame "xpath=html/body/div[2]/main/div/div[3]/div/div/a") 0 in
     wait_for_timeout page 3000 ;; click elem 5000 ;;
     pages <- context_pages context' ;; frame <- subscript_last pages ;;   (* l.87 *)
     try_except
       (expect_to_be_visible (first (locate frame "text=Batch size configuration successful")) 1000)
       isinstance_AssertionError
       (fun _ => raise (AssertionError
          "Test failed: Batch sizes for Hugging Face embedding requests and Pinecone vector upserts are not properly configurable or are causing rate limits/throttling as per the test plan.")) ;;
     asyncio_sleep 5)
    (c <- read context ;; if_set c context_close ;;
     b <- read browser ;; if_set b browser_close ;;
     p <- read pw ;; if_set p pw_stop).

(** TC020: [run_test] *)
Definition run_test_TC020 : M unit :=
  try_finally
    (pw' <- async_playwright_start ;; assign_pw pw' ;;
     browser' <- chromium_launch pw' true launch_args ;; assign_browser browser' ;;
     context' <- new_context browser' ;; assign_context context' ;;
     set_default_timeout context' 5000 ;;
     page <- new_page context' ;;
     goto page "http://localhost:5322" "commit" 10000 ;;
     try_except (page_wait_for_load_state page "domcontentloaded" 3000)
       isinstance_Error (fun _ => ret tt) ;;
     frames <- page_frames page ;;
     for_each frames (fun frame =>
       try_except (frame_wait_for_load_state frame "domcontentloaded" 3000)
         isinstance_Error (fun _ => ret tt)) ;;
     pages <- context_pages context' ;; frame <- subscript_last pages ;;   (* l.50 *)
     let elem := nth_ (locate frame "xpath=html/body/div[2]/header/div/div/a") 0 in
     wait_for_timeout page 3000 ;; click elem 5000 ;;
     pages <- context_pages context' ;; frame <- subscript_last pages ;;   (* l.57 *)
     let elem := nth_ (locate frame "xpath=html/body/div[2]/main/div/div/div/div/div/div[2]/div[2]/div/form/div/div[2]/div/div/input") 0 in
     wait_for_timeout page 3000 ;; fill elem "jane.smith@example.com" ;;
     pages <- context_pages context' ;; frame <- subscript_last pages ;;   (* l.63 *)
     let elem := nth_ (locate frame "xpath=html/body/div[2]/main/div/div/div/div/div/div[2]/div[2]/div/form/div[2]/div[2]/div/div/input") 0 in
     wait_for_timeout page 3000 ;; fill elem "MySecurePassword123!" ;;
     pages <- context_pages context' ;; frame <- subscript_last pages ;;   (* l.69 *)
     let elem := nth_ (locate frame "xpath=html/body/div[2]/main/div/div/div/div/div/div[2]/div[2]/div/form/button") 0 in
     wait_for_timeout page 3000 ;; click elem 5000 ;;
     pages <- context_pages context' ;; frame <- subscript_last pages ;;   (* l.76 *)
     let elem := nth_ (locate frame "xpath=html/body/div[2]/main/div/div[3]/div/div/a") 0 in
     wait_for_timeout page 3000 ;; click elem 5000 ;;
     pages <- context_pages context' ;; frame <- subscript_last pages ;;   (* l.83 *)
     try_except
       (expect_to_be_visible (first (locate frame "text=Document upload successful and searchable within 2 minutes")) 1000)
       isinstance_AssertionError
       (fun _ => raise (AssertionError
          "Test failed: The document did not become searchable within 2 minutes after upload as required by the test plan.")) ;;
     asyncio_sleep 5)
    (c <- read context ;; if_set c context_close ;;
     b <- read browser ;; if_set b browser_close ;;
     p <- read pw ;; if_set p pw_stop).

Inductive script : Type := TC005 | TC014 | TC016 | TC020.

Definition run_test (s : script) : M unit :=
  match s with
  | TC005 => run_test_TC005
  | TC014 => run_test_TC014
  | TC016 => run_test_TC016
  | TC020 => run_test_TC020
  end.

(** [asyncio.run(run_test())]: the outcome and the final state of a script. *)
Definition run (w : world) (s : script) : result unit * state :=
  run_test s w initial.

Definition outcome (w : world) (s : script) : result unit := fst (run w s).
Definition final_log (w : world) (s : script) : list event := log (snd (run w s)).
(** The events in the order they happened. *)
Definition history (w : world) (s : script) : list event := rev (final_log w s).

(** ** The common shape of the scripts

    The scripts differ only in the interaction steps after the frame-load
    waits and in the final assertions.  [run_plan] is the shared control
    flow over that data; [run_test_plan] below checks that each script is
    its instance, so that the proofs can go by induction on the steps. *)

Inductive step : Type :=
| ClickOn (sel : string)
| FillIn (sel value : string)
| Wheel (dx dy : Z).

Inductive verdict : Type :=
| Wrapped (sel : string) (timeout : Z) (message : string)
| Plain (checks : list (string * Z)).

Record plan : Type := mkPlan { plan_steps : list step; plan_verdict : verdict }.

(** Lines 12-26: the three acquisitions, each bound to its variable. *)
Definition acquire (k : handle -> M unit) : M unit :=
  pw' <- async_playwright_start ;; assign_pw pw' ;;
  browser' <- chromium_launch pw' true launch_args ;; assign_browser browser' ;;
  context' <- new_context browser' ;; assign_context context' ;;
  k context'.

(** Lines 27-46: default timeout, page, navigation and the load-state waits. *)
Definition open_page (context' : handle) (k : page_id -> M unit) : M unit :=
  set_default_timeout context' 5000 ;;
  page <- new_page context' ;;
  goto page "http://localhost:5322" "commit" 10000 ;;
  try_except (page_wait_for_load_state page "domcontentloaded" 3000)
    isinstance_Error (fun _ => ret tt) ;;
  frames <- page_frames page ;;
  for_each frames (fun frame =>
    try_except (frame_wait_for_load_state frame "domcontentloaded" 3000)
      isinstance_Error (fun _ => ret tt)) ;;
  k page.

Definition prologue (k : handle -> page_id -> M unit) : M unit :=
  acquire (fun context' => open_page context' (k context')).

(** One interaction step: re-select the last page, locate, pause, act. *)
Definition do_step (context' : handle) (page : page_id) (s : step) : M unit :=
  match s with
  | ClickOn sel =>
      pages <- context_pages context' ;; frame <- subscript_last pages ;;
      wait_for_timeout page 3000 ;; click (nth_ (locate frame sel) 0) 5000
  | FillIn sel value =>
      pages <- context_pages context' ;; frame <- subscript_last pages ;;
      wait_for_timeout page 3000 ;; fill (nth_ (locate frame sel) 0) value
  | Wheel dx dy => mouse_wheel page dx dy
  end.

Fixpoint interact (context' : handle) (page : page_id) (steps : list step)
    (k : M unit) : M unit :=
  match steps with
  | [] => k
  | ClickOn sel :: rest =>
      pages <- context_pages context' ;; frame <- subscript_last pages ;;
      wait_for_timeout page 3000 ;; click (nth_ (locate frame sel) 0) 5000 ;;
      interact context' page rest k
  | FillIn sel value :: rest =>
      pages <- context_pages context' ;; frame <- subscript_last pages ;;
      wait_for_timeout page 3000 ;; fill (nth_ (locate frame sel) 0) value ;;
      interact context' page rest k
  | Wheel dx dy :: rest =>
      mouse_wheel page dx dy ;; interact context' page rest k
  end.

Fixpoint expect_all (frame : page_id) (checks : list (string * Z)) (k : M unit)
  : M unit :=
  match checks with
  | [] => k
  | (sel, timeout) :: rest =>
      expect_to_be_visible (first (locate frame sel)) timeout ;;
      expect_all frame rest k
  end.

Definition verify (v : verdict) (context' : handle) : M unit :=
  pages <- context_pages context' ;; frame <- subscript_last pages ;;
  match v with
  | Wrapped sel timeout message =>
      try_except (expect_to_be_visible (first (locate frame sel)) timeout)
        isinstance_AssertionError
        (fun _ => raise (AssertionError message)) ;;
      asyncio_sleep 5
  | Plain checks => expect_all frame checks (asyncio_sleep 5)
  end.

Definition body (p : plan) : M unit :=
  prologue (fun context' page =>
    interact context' page (plan_steps p) (verify (plan_verdict p) context')).

Definition cleanup : M unit :=
  c <- read context ;; if_set c context_close ;;
  b <- read browser ;; if_set b browser_close ;;
  p <- read pw ;; if_set p pw_stop.

Definition run_plan (p : plan) : M unit := try_finally (body p) cleanup.

Definition login_link := "xpath=html/body/div[2]/header/div/div/a".
Definition email_input :=
  "xpath=html/body/div[2]/main/div/div/div/div/div/div[2]/div[2]/div/form/div/div[2]/div/div/input".
Definition password_input :=
  "xpath=html/body/div[2]/main/div/div/div/div/div/div[2]/div[2]/div/form/div[2]/div[2]/div/div/input".
Definition continue_button :=
  "xpath=html/body/div[2]/main/div/div/div/div/div/div[2]/div[2]/div/form/button".

(** The login every script starts with (lines 50-72 of each). *)
Definition login_steps : list step :=
  [ClickOn login_link; FillIn email_input "jane.smith@example.com";
   FillIn password_input "MySecurePassword123!"; ClickOn continue_button].

(** What each script does between the login and the assertions. *)
Definition feature_steps (s : script) : list step :=
  match s with
  | TC005 => [ClickOn "xpath=html/body/div[2]/header/div/nav/a[2]"]
  | TC014 =>
      [ClickOn "xpath=html/body/div[2]/header/div/div[2]/div[2]/button";
       FillIn email_input "admin@example.com";
       FillIn password_input "AdminPassword!2025";
       ClickOn continue_button;
       FillIn email_input "admin@example.com";
       FillIn password_input "AdminPassword!2025";
       ClickOn continue_button]
  | TC016 => [Wheel 0 300; ClickOn "xpath=html/body/div[2]/main/div/div[3]/div/div/a"]
  | TC020 => [ClickOn "xpath=html/body/div[2]/main/div/div[3]/div/div/a"]
  end.

Definition final_verdict (s : script) : verdict :=
  match s with
  | TC005 =>
      Wrapped "text=Document processing completed successfully" 1000
        "Test case failed: Uploaded documents were not processed correctly. Text extraction, normalization, chunking, or content hash generation did not meet the expected criteria as per the test plan."
  | TC014 =>
      Plain
        [("text=Welcome back", 30000);
         ("text=Access your knowledge base and search platform", 30000);
         ("text=Continue", 30000);
         ("text=By continuing, you agree to ourTermsandPrivacy Policy.", 30000);
         ("text=New to Quodo?Create an account", 30000);
         ("text=Secure access to your data", 30000);
         ("text=Enterprise-grade search platform with instant document retrieval and team collaboration.", 30000);
         ("text=Lightning-fast full-text search", 30000);
         ("text=Advanced document preview", 30000);
         ("text=Team sharing and permissions", 30000)]
  | TC016 =>
      Wrapped "text=Batch size configuration successful" 1000
        "Test failed: Batch sizes for Hugging Face embedding requests and Pinecone vector upserts are not properly configurable or are causing rate limits/throttling as per the test plan."
  | TC020 =>
      Wrapped "text=Document upload successful and searchable within 2 minutes" 1000
        "Test failed: The document did not become searchable within 2 minutes after upload as required by the test plan."
  end.

Definition plan_of (s : script) : plan :=
  {| plan_steps := login_steps ++ feature_steps s;
     plan_verdict := final_verdict s |}.

(** ** Observations on the log *)

Fixpoint choose {A B} (f : A -> option B) (xs : list A) : list B :=
  match xs with
  | [] => []
  | x :: rest =>
      match f x with
      | Some y => y :: choose f rest
      | None => choose f rest
      end
  end.

Definition is_prefix {A} (xs ys : list A) : Prop := exists zs, ys = xs ++ zs.

(** The call that acquires a resource, and the call that releases it. *)
Definition is_acquire (r : resource) (o : op) : bool :=
  match r, o with
  | Playwright, StartPlaywright => true
  | Browser, Launch _ _ => true
  | BrowserContext, NewContext => true
  | _, _ => false
  end.

Definition release_of (o : op) : option resource :=
  match o with
  | ContextClose => Some BrowserContext
  | BrowserClose => Some Browser
  | PlaywrightStop => Some Playwright
  | _ => None
  end.

Definition resource_eqb (r1 r2 : resource) : bool :=
  match r1, r2 with
  | Playwright, Playwright | Browser, Browser
  | BrowserContext, BrowserContext => true
  | _, _ => false
  end.

Definition is_release (r : resource) (o : op) : bool :=
  match release_of o with
  | Some r' => resource_eqb r r'
  | None => false
  end.

(** [r] was acquired: its acquiring call returned. *)
Definition acquired (r : resource) (lg : list event) : bool :=
  existsb (fun e => match e with
                    | Called o None => is_acquire r o
                    | _ => false
                    end) lg.

(** [r] was released: its releasing call returned. *)
Definition released (r : resource) (lg : list event) : bool :=
  existsb (fun e => match e with
                    | Called o None => is_release r o
                    | _ => false
                    end) lg.

(** Some releasing call raised. *)
Definition release_raised (lg : list event) : bool :=
  existsb (fun e => match e with
                    | Called o (Some _) =>
                        match release_of o with Some _ => true | None => false end
                    | _ => false
                    end) lg.

(** The releasing calls, oldest first, each with the exception it raised. *)
Definition release_call (e : event) : option (resource * option exn) :=
  match e with
  | Called o r =>
      match release_of o with
      | Some res => Some (res, r)
      | None => None
      end
  | _ => None
  end.

Definition release_calls (lg : list event) : list (resource * option exn) :=
  choose release_call (rev lg).

(** The resources held when the cleanup block starts, in the order in
    which the block looks at them. *)
Definition held (lg : list event) : list resource :=
  filter (fun r => acquired r lg) [BrowserContext; Browser; Playwright].

(** The releasing calls go through the held resources in order and stop
    at the first one that raises. *)
Fixpoint releases_in_order (hs : list resource)
    (calls : list (resource * option exn)) : bool :=
  match hs, calls with
  | [], [] => true
  | h :: hs', (r, None) :: calls' => resource_eqb h r && releases_in_order hs' calls'
  | h :: _, [(r, Some _)] => resource_eqb h r
  | _, _ => false
  end.

(** ** Some worlds *)

(** Nothing raises; one page with one frame. *)
Definition calm : world :=
  {| raises := fun _ _ => None;
     fresh_page := fun _ => 1%nat;
     pages_of := fun _ => [1%nat];
     frames_of := fun _ _ => [7%nat] |}.

(** As [calm], except that the calls picked by [bad] raise. *)
Definition troubled (bad : op -> option exn) : world :=
  {| raises := fun _ o => bad o;
     fresh_page := fun _ => 1%nat;
     pages_of := fun _ => [1%nat];
     frames_of := fun _ _ => [7%nat] |}.

(** Closing the context fails (for instance, the browser has crashed). *)
Definition context_close_fails : world :=
  troubled (fun o => match o with
                     | ContextClose => Some (Error "Target page, context or browser has been closed")
                     | _ => None
                     end).

(** The expected text never shows: the library's assertion times out. *)
Definition text_never_visible : world :=
  troubled (fun o => match o with
                     | ExpectVisible _ _ => Some (AssertionError "Locator expected to be visible")
                     | _ => None
                     end).

(** The wait for the page's load state ends with an exception that is
    not a Playwright error. *)
Definition wait_interrupted : world :=
  troubled (fun o => match o with
                     | PageWaitForLoadState _ _ _ => Some (OtherException "CancelledError")
                     | _ => None
                     end).

(** The waits for the load state time out, nothing else fails. *)
Definition waits_time_out : world :=
  troubled (fun o => match o with
                     | PageWaitForLoadState _ _ _
                     | FrameWaitForLoadState _ _ _ => Some (TimeoutError "Timeout 3000ms exceeded.")
                     | _ => None
                     end).

(** ** A Hoare logic for scripts

    [hoare w P m Q]: run from a state satisfying [P] in world [w], the
    script [m] ends, normally or by an exception, in a result and a state
    related by [Q]. *)

Definition hoare (w : world) {A} (P : state -> Prop) (m : M A)
    (Q : result A -> state -> Prop) : Prop :=
  forall st, P st -> Q (fst (m w st)) (snd (m w st)).

(** [I] holds again when [m] ends, however it ends. *)
Definition preserves (w : world) {A} (I : state -> Prop) (m : M A) : Prop :=
  hoare w I m (fun _ => I).

(** Logging [e] keeps [I]. *)
Definition absorbs (I : state -> Prop) (e : event) : Prop :=
  forall st, I st -> I (record e st).

(** An invariant of the log alone. *)
Definition on_log (J : list event -> Prop) : state -> Prop :=
  fun st => J (log st).

(** ** The events each part of a script can log *)

Inductive from_acquire : event -> Prop :=
| ev_start r : from_acquire (Called StartPlaywright r)
| ev_launch r : from_acquire (Called (Launch true launch_args) r)
| ev_new_context r : from_acquire (Called NewContext r).

Inductive from_open_page : event -> Prop :=
| ev_set_default_timeout r : from_open_page (Called (SetDefaultTimeout 5000) r)
| ev_new_page r : from_open_page (Called NewPage r)
| ev_goto p r :
    from_open_page (Called (Goto p "http://localhost:5322" "commit" 10000) r)
| ev_page_wait p r :
    from_open_page (Called (PageWaitForLoadState p "domcontentloaded" 3000) r)
| ev_frames p fs : from_open_page (FramesRead p fs)
| ev_frame_wait f r :
    from_open_page (Called (FrameWaitForLoadState f "domcontentloaded" 3000) r).

Inductive from_step : step -> event -> Prop :=
| ev_click_pages sel ps : from_step (ClickOn sel) (PagesRead ps)
| ev_click_pause sel page r :
    from_step (ClickOn sel) (Called (WaitForTimeout page 3000) r)
| ev_click sel frame r :
    from_step (ClickOn sel) (Called (Click (nth_ (locate frame sel) 0) 5000) r)
| ev_fill_pages sel value ps : from_step (FillIn sel value) (PagesRead ps)
| ev_fill_pause sel value page r :
    from_step (FillIn sel value) (Called (WaitForTimeout page 3000) r)
| ev_fill sel value frame r :
    from_step (FillIn sel value) (Called (Fill (nth_ (locate frame sel) 0) value) r)
| ev_wheel dx dy page r : from_step (Wheel dx dy) (Called (MouseWheel page dx dy) r).

(** The visibility checks of a verdict: selector and timeout. *)
Definition checks_of (v : verdict) : list (string * Z) :=
  match v with
  | Wrapped sel timeout _ => [(sel, timeout)]
  | Plain checks => checks
  end.

Inductive from_verify (v : verdict) : event -> Prop :=
| ev_verify_pages ps : from_verify v (PagesRead ps)
| ev_expect sel timeout frame r :
    In (sel, timeout) (checks_of v) ->
    from_verify v (Called (ExpectVisible (first (locate frame sel)) timeout) r)
| ev_sleep r : from_verify v (Called (Sleep 5) r).

Inductive from_cleanup : event -> Prop :=
| ev_context_close r : from_cleanup (Called ContextClose r)
| ev_browser_close r : from_cleanup (Called BrowserClose r)
| ev_pw_stop r : from_cleanup (Called PlaywrightStop r).

(** Every event a run of plan [p] can log. *)
Inductive emitted (p : plan) : event -> Prop :=
| em_acquire e : from_acquire e -> emitted p e
| em_open_page e : from_open_page e -> emitted p e
| em_step s e : In s (plan_steps p) -> from_step s e -> emitted p e
| em_verify e : from_verify (plan_verdict p) e -> emitted p e
| em_cleanup e : from_cleanup e -> emitted p e.

(** ** The resource discipline *)

Definition var_of (r : resource) (st : state) : option handle :=
  match r with
  | Playwright => pw st
  | Browser => browser st
  | BrowserContext => context st
  end.

(** The three variables say what was acquired, and no release has been
    called yet: what holds throughout the [try] body. *)
Definition tracks (st : state) : Prop :=
  (forall r, var_of r st = if acquired r (log st) then Some (Handle r) else None)
  /\ release_calls (log st) = [].

(** An event that neither acquires nor releases. *)
Definition page_level (e : event) : Prop :=
  release_call e = None
  /\ forall r, match e with
               | Called o None => is_acquire r o
               | _ => false
               end = false.

Definition release_op (r : resource) : op :=
  match r with
  | BrowserContext => ContextClose
  | Browser => BrowserClose
  | Playwright => PlaywrightStop
  end.

Definition release_event (c : resource * option exn) : event :=
  Called (release_op (fst c)) (snd c).

(** ** Checks on every event together with the events before it *)

(** [holds chk lg]: every event of the log [lg] (newest first) passes
    [chk], which also sees the events logged before it. *)
Fixpoint holds (chk : event -> list event -> bool) (lg : list event) : bool :=
  match lg with
  | [] => true
  | e :: past => chk e past && holds chk past
  end.

(** [context.set_default_timeout(5000)] has returned. *)
Definition default_timeout_set (lg : list event) : bool :=
  existsb (fun e => match e with
                    | Called (SetDefaultTimeout ms) None => ms =? 5000
                    | _ => false
                    end) lg.

(** The last thing that happened is a completed pause of 3000 ms. *)
Definition paused (past : list event) : bool :=
  match past with
  | Called (WaitForTimeout _ ms) None :: _ => ms =? 3000
  | _ => false
  end.

(** The timeouts of the calls that take one.  A fill passes no timeout of
    its own and falls under the context's default, which must have been
    set to 5000 ms before. *)
Definition timing_ok (e : event) (past : list event) : bool :=
  match e with
  | Called (SetDefaultTimeout ms) _ => ms =? 5000
  | Called (Goto _ _ _ timeout) _ => timeout =? 10000
  | Called (PageWaitForLoadState _ _ timeout) _ => timeout =? 3000
  | Called (FrameWaitForLoadState _ _ timeout) _ => timeout =? 3000
  | Called (WaitForTimeout _ ms) _ => ms =? 3000
  | Called (Click _ timeout) _ => (timeout =? 5000) && paused past
  | Called (Fill _ _) _ => default_timeout_set past && paused past
  | Called (ExpectVisible _ timeout) _ => (timeout =? 1000) || (timeout =? 30000)
  | _ => true
  end.

(** The visibility checks of a plan use one of the two fixed timeouts. *)
Definition check_timeouts_fixed (v : verdict) : bool :=
  forallb (fun c => (snd c =? 1000) || (snd c =? 30000)) (checks_of v).

Definition is_xpath (sel : string) : bool := String.prefix "xpath=" sel.

(** A click or fill acts on the first match ([.nth(0)]) of an XPath
    locator on the page that was last in [context.pages], read just
    before the pause that precedes the action. *)
Definition targets_last_page (e : event) (past : list event) : bool :=
  match e with
  | Called (Click l _) _ | Called (Fill l _) _ =>
      match past with
      | Called (WaitForTimeout _ _) None :: PagesRead ps :: _ =>
          match rev ps with
          | last :: _ => Nat.eqb (loc_page l) last
          | [] => false
          end
      | _ => false
      end
      && is_xpath (loc_selector l)
      && match loc_pick l with
         | Some (Nth 0) => true
         | _ => false
         end
  | _ => true
  end.

Definition step_uses_xpath (s : step) : bool :=
  match s with
  | ClickOn sel | FillIn sel _ => is_xpath sel
  | Wheel _ _ => true
  end.

(** ** The commands a run issues to the browser *)

Definition anonymous_locator (l : locator) : locator :=
  {| loc_page := 0%nat; loc_selector := loc_selector l; loc_pick := loc_pick l |}.

(** A call with the identity of the page erased: pages are numbered by
    the browser, not by the script. *)
Definition anonymous (o : op) : op :=
  match o with
  | Goto _ url wait_until timeout => Goto 0%nat url wait_until timeout
  | PageWaitForLoadState _ st timeout => PageWaitForLoadState 0%nat st timeout
  | WaitForTimeout _ ms => WaitForTimeout 0%nat ms
  | Click l timeout => Click (anonymous_locator l) timeout
  | Fill l value => Fill (anonymous_locator l) value
  | MouseWheel _ dx dy => MouseWheel 0%nat dx dy
  | ExpectVisible l timeout => ExpectVisible (anonymous_locator l) timeout
  | other => other
  end.

(** The commands of the [try] body: every call except the waits on the
    frames (one per frame the page happens to have), the final sleep and
    the releases of the cleanup block. *)
Definition command_of_op (o : op) : option op :=
  match o with
  | FrameWaitForLoadState _ _ _ | Sleep _
  | ContextClose | BrowserClose | PlaywrightStop => None
  | other => Some (anonymous other)
  end.

Definition command_of (e : event) : option op :=
  match e with
  | Called o _ => command_of_op o
  | _ => None
  end.

(** The commands of a log, oldest first. *)
Definition commands (lg : list event) : list op := choose command_of (rev lg).

Definition open_phase : list op :=
  [StartPlaywright; Launch true launch_args; NewContext; SetDefaultTimeout 5000;
   NewPage].

Definition navigate_phase : list op :=
  [Goto 0%nat "http://localhost:5322" "commit" 10000;
   PageWaitForLoadState 0%nat "domcontentloaded" 3000].

Definition step_commands (s : step) : list op :=
  match s with
  | ClickOn sel =>
      [WaitForTimeout 0%nat 3000; Click (nth_ (locate 0%nat sel) 0) 5000]
  | FillIn sel value =>
      [WaitForTimeout 0%nat 3000; Fill (nth_ (locate 0%nat sel) 0) value]
  | Wheel dx dy => [MouseWheel 0%nat dx dy]
  end.

Definition check_command (c : string * Z) : op :=
  ExpectVisible (first (locate 0%nat (fst c))) (snd c).

Definition plan_commands (p : plan) : list op :=
  open_phase ++ navigate_phase ++ flat_map step_commands (plan_steps p)
  ++ map check_command (checks_of (plan_verdict p)).

(** The fixed command sequence of a script. *)
Definition script_commands (s : script) : list op := plan_commands (plan_of s).

(** [emits w m cs]: run from any state, [m] adds to the commands issued
    so far a prefix of [cs], and all of [cs] when it ends normally. *)
Definition emits (w : world) {A} (m : M A) (cs : list op) : Prop :=
  forall st,
    exists xs,
      commands (log (snd (m w st))) = commands (log st) ++ xs
      /\ is_prefix xs cs
      /\ (is_ok (fst (m w st)) = true -> xs = cs).

Definition authenticate_phase : list op := flat_map step_commands login_steps.

Definition feature_phase (s : script) : list op :=
  flat_map step_commands (feature_steps s).

Definition assert_phase (s : script) : list op :=
  map check_command (checks_of (final_verdict s)).

(** Open the browser, navigate, authenticate, go to the feature, assert. *)
Definition procedure (s : script) : list op :=
  open_phase ++ navigate_phase ++ authenticate_phase ++ feature_phase s
  ++ assert_phase s.

(** ** Failures that do not stop a script *)

Definition is_load_wait (o : op) : bool :=
  match o with
  | PageWaitForLoadState _ _ _ | FrameWaitForLoadState _ _ _ => true
  | _ => false
  end.

(** An event after which the [try] body goes on: a call that returned, a
    load-state wait that raised a Playwright error, a page list that is
    not empty. *)
Definition harmless (e : event) : bool :=
  match e with
  | Called o (Some x) => is_load_wait o && isinstance_Error x
  | PagesRead [] => false
  | _ => true
  end.

(** [blames w m]: when [m] raises, a harmful event is in the log. *)
Definition blames (w : world) {A} (m : M A) : Prop :=
  forall st,
    is_ok (fst (m w st)) = false ->
    forallb harmless (log (snd (m w st))) = false.

(** ** The final assertions *)

(** A visibility check ended with an AssertionError. *)
Definition assertion_failed (lg : list event) : bool :=
  existsb (fun e => match e with
                    | Called (ExpectVisible _ _) (Some x) => isinstance_AssertionError x
                    | _ => false
                    end) lg.

(** The message a script puts in place of the library's, if it does. *)
Definition failure_message (v : verdict) : option string :=
  match v with
  | Wrapped _ _ message => Some message
  | Plain _ => None
  end.

(** The visibility checks made, oldest first: selector, timeout and the
    exception raised, if any. *)
Definition check_made (e : event) : option (string * Z * option exn) :=
  match e with
  | Called (ExpectVisible l timeout) r => Some (loc_selector l, timeout, r)
  | _ => None
  end.

Definition checks_made (lg : list event) : list (string * Z * option exn) :=
  choose check_made (rev lg).

(** The check was made and the text was visible in time. *)
Definition passed (c : string * Z) : string * Z * option exn :=
  (fst c, snd c, None).

(** The final [asyncio.sleep] raised. *)
Definition sleep_raised (lg : list event) : bool :=
  existsb (fun e => match e with
                    | Called (Sleep _) (Some _) => true
                    | _ => false
                    end) lg.

(** The addresses navigated to. *)
Definition url_visited (e : event) : option string :=
  match e with
  | Called (Goto _ url _ _) _ => Some url
  | _ => None
  end.

(** The text the specification names for each script. *)
Definition expected_text (s : script) : string :=
  match s with
  | TC005 => "text=Document processing completed successfully"
  | TC014 => "text=Welcome back"
  | TC016 => "text=Batch size configuration successful"
  | TC020 => "text=Document upload successful and searchable within 2 minutes"
  end.

(** ** Invariants used in the proofs *)

(** The commands of one call. *)
Definition op_commands (o : op) : list op :=
  match command_of_op o with Some c => [c] | None => [] end.

(** Every event so far has its fixed timeout. *)
Definition timed (lg : list event) : Prop := holds timing_ok lg = true.

(** The same, after the default timeout was set. *)
Definition timed_with_default (lg : list event) : Prop :=
  holds timing_ok lg = true /\ default_timeout_set lg = true.

(** Every click and fill so far acts on the last page. *)
Definition targeted (lg : list event) : Prop := holds targets_last_page lg = true.

(** No visibility check has ended with an AssertionError so far. *)
Definition unasserted (lg : list event) : Prop := assertion_failed lg = false.

(** So far [done] was checked, with success, and the sleep did not raise. *)
Definition checked (done : list (string * Z)) (lg : list event) : Prop :=
  checks_made lg = map passed done /\ sleep_raised lg = false.

(** ** How a run ends *)

(** The exception with which the [try] body ends after event [ev], if it
    ends there: an empty page list gives the IndexError of
    [context.pages[-1]]; a call that raised gives its exception, unless it
    is a load-state wait with a Playwright error (swallowed), or an
    AssertionError of the wrapped visibility check, which the script
    replaces by one with its own message. *)
Definition raised_by (v : verdict) (ev : event) : option exn :=
  match ev with
  | PagesRead [] => Some IndexError
  | Called o (Some x) =>
      if is_load_wait o && isinstance_Error x then None
      else
        match o, failure_message v with
        | ExpectVisible _ _, Some message =>
            if isinstance_AssertionError x
            then Some (AssertionError message)
            else Some x
        | _, _ => Some x
        end
  | _ => None
  end.

(** [stops v r st]: the computation went on as long as the events were
    harmless; if it raised, the last event is the one that explains the
    exception. *)
Definition stops (v : verdict) {A} (r : result A) (st : state) : Prop :=
  match r with
  | Ok _ => forallb harmless (log st) = true
  | Raised e =>
      exists ev lg,
        log st = ev :: lg
        /\ forallb harmless lg = true
        /\ raised_by v ev = Some e
  end.

Definition all_harmless (lg : list event) : Prop := forallb harmless lg = true.

(** The context has no page left (the page was closed or has crashed). *)
Definition no_pages : world :=
  {| raises := fun _ _ => None;
     fresh_page := fun _ => 1%nat;
     pages_of := fun _ => [];
     frames_of := fun _ _ => [7%nat] |}.

(** ** The chain of acquisitions *)

(** The context is acquired only with the browser, and the browser only
    with the Playwright session. *)
Definition nested (lg : list event) : Prop :=
  implb (acquired BrowserContext lg) (acquired Browser lg)
  && implb (acquired Browser lg) (acquired Playwright lg) = true.

(** An event that acquires nothing. *)
Definition acquires_nothing (e : event) : Prop :=
  forall r, match e with
            | Called o None => is_acquire r o
            | _ => false
            end = false.

(** The fields the scripts type into, with what they type. *)
Definition credential_fields : list (string * string) :=
  [(email_input, "jane.smith@example.com");
   (password_input, "MySecurePassword123!");
   (email_input, "admin@example.com");
   (password_input, "AdminPassword!2025")].

Definition is_credential (sel value : string) : bool :=
  existsb (fun f => String.eqb (fst f) sel && String.eqb (snd f) value)
    credential_fields.

Definition step_fills_credentials (s : step) : bool :=
  match s with
  | FillIn sel value => is_credential sel value
  | _ => true
  end.

(** What a fill types: one of the credentials, into its own field. *)
Definition types_credential (e : event) : bool :=
  match e with
  | Called (Fill l value) _ => is_credential (loc_selector l) value
  | _ => true
  end.

(** A fill types a credential into the first match of its field's
    locator on the page that was last in [context.pages], read just
    before the pause that precedes the fill. *)
Definition fills_credential_field (e : event) (past : list event) : bool :=
  types_credential e && targets_last_page e past.

(** ** The order of the visibility checks *)

(** The checks made follow the script's list of checks, in order; a check
    that raised is the last one made. *)
Fixpoint checks_in_order (checks : list (string * Z))
    (made : list (string * Z * option exn)) {struct made} : bool :=
  match made, checks with
  | [], _ => true
  | (sel, timeout, None) :: made', (sel', timeout') :: checks' =>
      String.eqb sel sel' && (timeout =? timeout')
      && checks_in_order checks' made'
  | [(sel, timeout, Some _)], (sel', timeout') :: _ =>
      String.eqb sel sel' && (timeout =? timeout')
  | _, _ => false
  end.

(** ** The frames of the page and the waits on them *)

Definition frames_listed (e : event) : option (list frame_id) :=
  match e with
  | FramesRead _ fs => Some fs
  | _ => None
  end.

Definition frame_waited (e : event) : option frame_id :=
  match e with
  | Called (FrameWaitForLoadState f _ _) _ => Some f
  | _ => None
  end.

(** What [page.frames] returned, each time it was read. *)
Definition frame_lists (lg : list event) : list (list frame_id) :=
  choose frames_listed (rev lg).

(** The frames waited on, oldest first. *)
Definition frame_waits (lg : list event) : list frame_id :=
  choose frame_waited (rev lg).

(** [page.frames] was not read yet. *)
Definition frames_unread (lg : list event) : Prop :=
  frame_lists lg = [] /\ frame_waits lg = [].

(** [page.frames] was read once and gave [fs]; [done] was waited on. *)
Definition frames_waited (fs done : list frame_id) (lg : list event) : Prop :=
  frame_lists lg = [fs] /\ frame_waits lg = done.

(** The waits go through the frames listed, in order. *)
Definition waits_follow_frames (lg : list event) : Prop :=
  frames_unread lg
  \/ exists fs, frame_lists lg = [fs] /\ is_prefix (frame_waits lg) fs.

(** ** The page the script opened *)

(** The page a page-level call or read is made on (clicks, fills and
    checks go through a locator instead). *)
Definition page_of_event (e : event) : option page_id :=
  match e with
  | Called (Goto p _ _ _) _
  | Called (PageWaitForLoadState p _ _) _
  | Called (WaitForTimeout p _) _
  | Called (MouseWheel p _ _) _
  | FramesRead p _ => Some p
  | _ => None
  end.

(** The page a click, a fill or a visibility check acts on, through its
    locator. *)
Definition located_on (e : event) : option page_id :=
  match e with
  | Called (Click l _) _
  | Called (Fill l _) _
  | Called (ExpectVisible l _) _ => Some (loc_page l)
  | _ => None
  end.

(** The page [context.new_page()] returned in world [w], once the call
    has returned. *)
Fixpoint opened_page (w : world) (lg : list event) : option page_id :=
  match lg with
  | [] => None
  | Called NewPage None :: past => Some (fresh_page w past)
  | _ :: past => opened_page w past
  end.

(** The last page of [context.pages], as it was read last. *)
Fixpoint last_page_read (lg : list event) : option page_id :=
  match lg with
  | [] => None
  | PagesRead ps :: _ => hd_error (rev ps)
  | _ :: past => last_page_read past
  end.

Definition same_page (p : option page_id) (q : page_id) : bool :=
  match p with
  | Some p' => Nat.eqb p' q
  | None => false
  end.

(** A page-level call or read is made on the page that [new_page]
    returned; a click, a fill or a check acts on the last page of the
    page list read last. *)
Definition on_right_page (w : world) (e : event) (past : list event) : bool :=
  match page_of_event e, located_on e with
  | Some p, _ => same_page (opened_page w past) p
  | None, Some p => same_page (last_page_read past) p
  | None, None => true
  end.

(** So far every event was on the right page, and the page opened is [pg]. *)
Definition on_opened_page (w : world) (pg : page_id) (lg : list event) : Prop :=
  holds (on_right_page w) lg = true /\ opened_page w lg = Some pg.

(** ** Calls are made on live objects only *)

(** The resources a call or read needs: the object it is made on and
    the ones that object lives in. *)
Definition requires (e : event) : list resource :=
  match e with
  | Called StartPlaywright _ | Called (Sleep _) _ => []
  | Called (Launch _ _) _ | Called PlaywrightStop _ => [Playwright]
  | Called NewContext _ | Called BrowserClose _ => [Browser; Playwright]
  | _ => [BrowserContext; Browser; Playwright]
  end.

(** A release of [r] was called, whether it returned or raised. *)
Definition release_attempted (r : resource) (lg : list event) : bool :=
  existsb (fun c => resource_eqb r (fst c)) (release_calls lg).

(** [r] was acquired and no release of it was called. *)
Definition live (r : resource) (lg : list event) : bool :=
  acquired r lg && negb (release_attempted r lg).

Definition on_live_objects (e : event) (past : list event) : bool :=
  forallb (fun r => live r past) (requires e).

(** Everything is acquired, nothing released: what holds from the end of
    the acquisitions to the end of the [try] body. *)
Definition all_live (lg : list event) : Prop :=
  holds on_live_objects lg = true
  /\ (forall r, acquired r lg = true)
  /\ release_calls lg = [].

(** ** Where a run stops *)

Definition is_release_event (e : event) : bool :=
  match release_call e with
  | Some _ => true
  | None => false
  end.

(** No statement of the [try] body failed: every event of the run is
    harmless, the release calls of the cleanup block apart. *)
Definition body_undisturbed (lg : list event) : bool :=
  forallb (fun e => harmless e || is_release_event e) lg.

(** ** The phases of the procedure *)

Definition is_wheel (o : op) : bool :=
  match o with
  | MouseWheel _ _ _ => true
  | _ => false
  end.

(** The first match of an XPath locator. *)
Definition is_first_xpath_match (l : locator) : bool :=
  is_xpath (loc_selector l)
  && match loc_pick l with
     | Some (Nth 0) => true
     | _ => false
     end.

(** What a feature phase is made of: pauses of 3000 ms, clicks and fills
    on the first match of an XPath locator, and mouse-wheel scrolls. *)
Definition is_feature_command (o : op) : bool :=
  match o with
  | WaitForTimeout _ ms => ms =? 3000
  | Click l _ | Fill l _ => is_first_xpath_match l
  | MouseWheel _ _ _ => true
  | _ => false
  end.

(** A visibility check of the first element with a given text. *)
Definition is_text_check (o : op) : bool :=
  match o with
  | ExpectVisible l _ =>
      String.prefix "text=" (loc_selector l)
      && match loc_pick l with
         | Some First => true
         | _ => false
         end
  | _ => false
  end.

Definition is_click_on (sel : string) (o : op) : bool :=
  match o with
  | Click l _ => String.eqb (loc_selector l) sel
  | _ => false
  end.

(** ** The bound the script puts on a call *)

(** The calls the scripts make without any timeout. *)
Definition takes_no_timeout (o : op) : bool :=
  match o with
  | StartPlaywright | Launch _ _ | NewContext | NewPage | MouseWheel _ _ _
  | ContextClose | BrowserClose | PlaywrightStop => true
  | _ => false
  end.

(** The bound, in ms, that the script puts on what happens at event [e]:
    the timeout or duration the call passes; for a fill, the context's
    default if it was set before; nothing for the calls made without a
    timeout.  Setting the default and reading a property wait for
    nothing. *)
Definition bound (e : event) (past : list event) : option Z :=
  match e with
  | Called (Goto _ _ _ timeout) _ => Some timeout
  | Called (PageWaitForLoadState _ _ timeout) _ => Some timeout
  | Called (FrameWaitForLoadState _ _ timeout) _ => Some timeout
  | Called (Click _ timeout) _ => Some timeout
  | Called (ExpectVisible _ timeout) _ => Some timeout
  | Called (WaitForTimeout _ ms) _ => Some ms
  | Called (Sleep seconds) _ => Some (1000 * seconds)
  | Called (Fill _ _) _ => if default_timeout_set past then Some 5000 else None
  | Called (SetDefaultTimeout _) _ => Some 0
  | Called _ _ => None
  | PagesRead _ | FramesRead _ _ => Some 0
  end.

Definition is_bounded (e : event) (past : list event) : bool :=
  match bound e past with
  | Some _ => true
  | None => false
  end.

(** A call is bounded exactly when it is not one of those made without
    a timeout. *)
Definition bounded_unless_untimed (e : event) (past : list event) : bool :=
  match e with
  | Called o _ => Bool.eqb (is_bounded e past) (negb (takes_no_timeout o))
  | _ => is_bounded e past
  end.

(** The sleep that ends the [try] body lasts 5 seconds. *)
Definition fixed_sleep (e : event) : bool :=
  match e with
  | Called (Sleep seconds) _ => seconds =? 5
  | _ => true
  end.

(** The constants, in ms, that the scripts use as bounds. *)
Definition fixed_bounds : list Z := [0; 1000; 3000; 5000; 10000; 30000].

(** The bound put on an event, if any, is one of the constants. *)
Definition bound_is_fixed (e : event) (past : list event) : bool :=
  match bound e past with
  | Some b => existsb (Z.eqb b) fixed_bounds
  | None => true
  end.

(** ** All the calls of a run *)

(** A call with the identities of pages and frames erased. *)
Definition call_made (e : event) : option op :=
  match e with
  | Called (FrameWaitForLoadState _ st timeout) _ =>
      Some (FrameWaitForLoadState 0%nat st timeout)
  | Called o _ => Some (anonymous o)
  | _ => None
  end.

(** Every call of a run, oldest first, the waits on frames included. *)
Definition calls (lg : list event) : list op := choose call_made (rev lg).

(** As [calm], with a page that has no frame at all. *)
Definition frameless : world :=
  {| raises := fun _ _ => None;
     fresh_page := fun _ => 1%nat;
     pages_of := fun _ => [1%nat];
     frames_of := fun _ _ => [] |}.

(** As [calm], with a page that embeds an iframe. *)
Definition two_frames : world :=
  {| raises := fun _ _ => None;
     fresh_page := fun _ => 1%nat;
     pages_of := fun _ => [1%nat];
     frames_of := fun _ _ => [7%nat; 8%nat] |}.

(** What every run of script [s] does: it issues an initial part of the
    script's fixed commands, all of them unless a statement of the [try]
    body failed; the body stops at its first harmful event, after which
    only release calls follow; and the waits on frames follow the frames
    the page listed. *)
Definition follows_script (s : script) (lg : list event) : Prop :=
  is_prefix (commands lg) (script_commands s)
  /\ (body_undisturbed lg = true -> commands lg = script_commands s)
  /\ (exists releases body_log,
        lg = releases ++ body_log
        /\ Forall from_cleanup releases
        /\ release_calls body_log = []
        /\ forallb harmless (tl body_log) = true)
  /\ waits_follow_frames lg.

(** ** Load-state waits that raise *)

(** A load-state wait raised a Playwright error, which the handler
    around it swallows. *)
Definition swallowed (e : event) : bool :=
  match e with
  | Called o (Some x) => is_load_wait o && isinstance_Error x
  | _ => false
  end.

(** A computation that ended normally did not end on a swallowed wait:
    something was done after it. *)
Definition goes_on (r : result unit) (st : state) : Prop :=
  r = Ok tt ->
  match log st with
  | e :: _ => swallowed e = false
  | [] => True
  end.

(** The wait for the load state of a frame ends with an exception that
    is not a Playwright error. *)
Definition frame_wait_interrupted : world :=
  troubled (fun o => match o with
                     | FrameWaitForLoadState _ _ _ => Some (OtherException "CancelledError")
                     | _ => None
                     end).
(** * Proofs *)

(** Every script is the shared control flow run on its own data. *)
Lemma run_test_plan (s : script) : run_test s = run_plan (plan_of s).
Proof. destruct s; reflexivity. Qed.

(** ** Rules of the Hoare logic *)

Section Hoare.
Variable w : world.

Lemma hoare_bind {A B} (P : state -> Prop) (m : M A) (f : A -> M B)
    (R : A -> state -> Prop) (Q : result B -> state -> Prop) :
  hoare w P m (fun r st => match r with
                         | Ok a => R a st
                         | Raised e => Q (Raised e) st
                         end) ->
  (forall a, hoare w (R a) (f a) Q) ->
  hoare w P (bind m f) Q.
Proof.
  intros Hm Hf st HP. specialize (Hm st HP). unfold bind.
  destruct (m w st) as [[a|e] st1]; cbn in *.
  - apply Hf, Hm.
  - exact Hm.
Qed.

Lemma hoare_seq {A B} (I : state -> Prop) (m : M A) (f : A -> M B)
    (Q : result B -> state -> Prop) :
  preserves w I m ->
  (forall e st, I st -> Q (Raised e) st) ->
  (forall a, hoare w I (f a) Q) ->
  hoare w I (bind m f) Q.
Proof.
  intros Hm Hexit Hf. apply hoare_bind with (R := fun _ => I); auto.
  intros st HI. specialize (Hm st HI).
  destruct (m w st) as [[a|e] st1]; cbn in *; auto.
Qed.

Lemma hoare_weaken {A} (P P' : state -> Prop) (m : M A)
    (Q Q' : result A -> state -> Prop) :
  hoare w P' m Q' ->
  (forall st, P st -> P' st) ->
  (forall r st, Q' r st -> Q r st) ->
  hoare w P m Q.
Proof. intros H HP HQ st Hst. apply HQ, H, HP, Hst. Qed.

Lemma preserves_ret {A} I (a : A) : preserves w I (ret a).
Proof. intros st H; exact H. Qed.

Lemma preserves_raise {A} I e : preserves w I (@raise A e).
Proof. intros st H; exact H. Qed.

Lemma preserves_read {A} I (var : state -> A) : preserves w I (read var).
Proof. intros st H; exact H. Qed.

Lemma preserves_bind {A B} I (m : M A) (f : A -> M B) :
  preserves w I m -> (forall a, preserves w I (f a)) -> preserves w I (bind m f).
Proof. intros Hm Hf. apply hoare_seq; auto. Qed.

Lemma preserves_try_except {A} I (m : M A) catches handler :
  preserves w I m -> (forall e, preserves w I (handler e)) ->
  preserves w I (try_except m catches handler).
Proof.
  intros Hm Hh st HI. specialize (Hm st HI). unfold try_except.
  destruct (m w st) as [[a|e] st1]; cbn in *; auto.
  destruct (catches e); cbn; auto. apply Hh, Hm.
Qed.

Lemma preserves_try_finally {A} I (m : M A) fin :
  preserves w I m -> preserves w I fin -> preserves w I (try_finally m fin).
Proof.
  intros Hm Hf st HI. specialize (Hm st HI). unfold try_finally.
  destruct (m w st) as [r st1]; cbn in *.
  specialize (Hf st1 Hm). destruct (fin w st1) as [[a|e] st2]; cbn in *; auto.
Qed.

Lemma preserves_for_each {A} I (xs : list A) (f : A -> M unit) :
  (forall x, preserves w I (f x)) -> preserves w I (for_each xs f).
Proof.
  intros Hf. induction xs as [|x xs IH]; cbn.
  - apply preserves_ret.
  - apply preserves_bind; auto.
Qed.

Lemma preserves_call I o :
  (forall r, absorbs I (Called o r)) -> preserves w I (call o).
Proof. intros H st HI. cbn. apply H, HI. Qed.

Lemma preserves_context_pages I c :
  (forall ps, absorbs I (PagesRead ps)) -> preserves w I (context_pages c).
Proof. intros H st HI. cbn. apply H, HI. Qed.

Lemma preserves_page_frames I p :
  (forall fs, absorbs I (FramesRead p fs)) -> preserves w I (page_frames p).
Proof. intros H st HI. cbn. apply H, HI. Qed.

Lemma preserves_subscript_last {A} I (xs : list A) :
  preserves w I (subscript_last xs).
Proof. unfold subscript_last. destruct (rev xs); intros st H; exact H. Qed.

Lemma preserves_new_page I c :
  (forall r, absorbs I (Called NewPage r)) -> preserves w I (new_page c).
Proof.
  intros H st HI. unfold new_page. cbn.
  destruct (raises w (log st) NewPage) eqn:E; cbn; rewrite <- E; apply H, HI.
Qed.

Lemma preserves_if_set I v f :
  (forall h, preserves w I (f h)) -> preserves w I (if_set v f).
Proof. intros H. destruct v; cbn; auto using preserves_ret. Qed.
End Hoare.

(** ** The parts of a script, one rule each *)

Section Parts.
Variable w : world.

Lemma hoare_ext {A} P (m m' : M A) Q :
  (forall st, m w st = m' w st) -> hoare w P m Q -> hoare w P m' Q.
Proof. intros E H st HP. rewrite <- E. apply H, HP. Qed.

Lemma preserves_guarded_wait I o :
  (forall r, absorbs I (Called o r)) ->
  preserves w I (try_except (call o) isinstance_Error (fun _ => ret tt)).
Proof.
  intros H. apply preserves_try_except.
  - apply preserves_call, H.
  - intros e. apply preserves_ret.
Qed.

Lemma hoare_open_page I Q c (k : page_id -> M unit) :
  (forall e, from_open_page e -> absorbs I e) ->
  (forall e st, I st -> Q (Raised e) st) ->
  (forall page, hoare w I (k page) Q) ->
  hoare w I (open_page c k) Q.
Proof.
  intros Hev Hexit Hk. unfold open_page.
  apply hoare_seq; auto.
  { apply preserves_call; intro; apply Hev; constructor. }
  intros _. apply hoare_seq; auto.
  { apply preserves_new_page; intro; apply Hev; constructor. }
  intros page. apply hoare_seq; auto.
  { apply preserves_call; intro; apply Hev; constructor. }
  intros _. apply hoare_seq; auto.
  { apply preserves_guarded_wait; intro; apply Hev; constructor. }
  intros _. apply hoare_seq; auto.
  { apply preserves_page_frames; intro; apply Hev; constructor. }
  intros frames. apply hoare_seq; auto.
  apply preserves_for_each. intros f.
  apply preserves_guarded_wait; intro; apply Hev; constructor.
Qed.

Lemma preserves_do_step I c page s :
  (forall e, from_step s e -> absorbs I e) ->
  preserves w I (do_step c page s).
Proof.
  intros Hev. destruct s; cbn [do_step].
  - apply preserves_bind.
    { apply preserves_context_pages; intro; apply Hev; constructor. }
    intros ps. apply preserves_bind; [apply preserves_subscript_last|].
    intros frame. apply preserves_bind.
    { apply preserves_call; intro; apply Hev; constructor. }
    intros _. apply preserves_call; intro; apply Hev; constructor.
  - apply preserves_bind.
    { apply preserves_context_pages; intro; apply Hev; constructor. }
    intros ps. apply preserves_bind; [apply preserves_subscript_last|].
    intros frame. apply preserves_bind.
    { apply preserves_call; intro; apply Hev; constructor. }
    intros _. apply preserves_call; intro; apply Hev; constructor.
  - apply preserves_call; intro; apply Hev; constructor.
Qed.

Lemma interact_cons c page s rest k st :
  interact c page (s :: rest) k w st
  = bind (do_step c page s) (fun _ => interact c page rest k) w st.
Proof.
  destruct s; cbn [interact do_step]; unfold bind; cbn;
    repeat match goal with
      | |- context [subscript_last ?xs w ?st] =>
          destruct (subscript_last xs w st) as [[?|?] ?]; cbn
      | |- context [raises w ?l ?o] => destruct (raises w l o); cbn
      end; reflexivity.
Qed.

Lemma hoare_interact I Q c page steps k :
  (forall s, In s steps -> preserves w I (do_step c page s)) ->
  (forall e st, I st -> Q (Raised e) st) ->
  hoare w I k Q ->
  hoare w I (interact c page steps k) Q.
Proof.
  intros Hs Hexit Hk. induction steps as [|s rest IH]; cbn [interact].
  - exact Hk.
  - eapply hoare_ext; [intro; symmetry; apply interact_cons|].
    apply hoare_seq; auto.
    + apply Hs; left; reflexivity.
    + intros _. apply IH. intros s' Hin. apply Hs; right; exact Hin.
Qed.

Lemma preserves_expect_all I frame checks k :
  (forall sel timeout r, In (sel, timeout) checks ->
     absorbs I (Called (ExpectVisible (first (locate frame sel)) timeout) r)) ->
  preserves w I k ->
  preserves w I (expect_all frame checks k).
Proof.
  intros Hev Hk. induction checks as [|[sel timeout] rest IH]; cbn [expect_all].
  - exact Hk.
  - apply preserves_bind.
    + apply preserves_call; intro; apply Hev; left; reflexivity.
    + intros _. apply IH. intros; apply Hev; right; assumption.
Qed.

Lemma preserves_verify I v c :
  (forall e, from_verify v e -> absorbs I e) ->
  preserves w I (verify v c).
Proof.
  intros Hev. unfold verify.
  apply preserves_bind.
  { apply preserves_context_pages; intro; apply Hev; constructor. }
  intros ps. apply preserves_bind; [apply preserves_subscript_last|].
  intros frame. destruct v as [sel timeout message|checks].
  - apply preserves_bind.
    + apply preserves_try_except.
      * apply preserves_call; intro; apply Hev; constructor; left; reflexivity.
      * intros e. apply preserves_raise.
    + intros _. apply preserves_call; intro; apply Hev; constructor.
  - apply preserves_expect_all.
    + intros sel timeout r Hin. apply Hev; constructor; exact Hin.
    + apply preserves_call; intro; apply Hev; constructor.
Qed.

Lemma preserves_cleanup I :
  (forall e, from_cleanup e -> absorbs I e) ->
  preserves w I cleanup.
Proof.
  intros Hev. unfold cleanup.
  apply preserves_bind; [apply preserves_read|]. intros c.
  apply preserves_bind.
  { apply preserves_if_set; intro; apply preserves_call; intro; apply Hev; constructor. }
  intros _. apply preserves_bind; [apply preserves_read|]. intros b.
  apply preserves_bind.
  { apply preserves_if_set; intro; apply preserves_call; intro; apply Hev; constructor. }
  intros _. apply preserves_bind; [apply preserves_read|]. intros p.
  apply preserves_if_set; intro; apply preserves_call; intro; apply Hev; constructor.
Qed.
End Parts.

(** ** Invariants of the log over a whole run *)

Section WholeRun.
Variable w : world.

Lemma preserves_assign_pw J h : preserves w (on_log J) (assign_pw h).
Proof. intros st H; exact H. Qed.
Lemma preserves_assign_browser J h : preserves w (on_log J) (assign_browser h).
Proof. intros st H; exact H. Qed.
Lemma preserves_assign_context J h : preserves w (on_log J) (assign_context h).
Proof. intros st H; exact H. Qed.

Lemma preserves_call_ret {A} I o (a : A) :
  (forall r, absorbs I (Called o r)) -> preserves w I (call o ;; ret a).
Proof.
  intros H. apply preserves_bind; [apply preserves_call, H|].
  intros _; apply preserves_ret.
Qed.

Lemma hoare_acquire J Q (k : handle -> M unit) :
  (forall e, from_acquire e -> absorbs (on_log J) e) ->
  (forall e st, on_log J st -> Q (Raised e) st) ->
  (forall c, hoare w (on_log J) (k c) Q) ->
  hoare w (on_log J) (acquire k) Q.
Proof.
  intros Hev Hexit Hk. unfold acquire.
  apply hoare_seq; auto.
  { apply preserves_call_ret; intro; apply Hev; constructor. }
  intros pw'. apply hoare_seq; auto using preserves_assign_pw.
  intros _. apply hoare_seq; auto.
  { apply preserves_call_ret; intro; apply Hev; constructor. }
  intros browser'. apply hoare_seq; auto using preserves_assign_browser.
  intros _. apply hoare_seq; auto.
  { apply preserves_call_ret; intro; apply Hev; constructor. }
  intros context'. apply hoare_seq; auto using preserves_assign_context.
Qed.

(** An invariant that every event of the plan keeps is kept by the run. *)
Lemma preserves_run_plan J p :
  (forall e, emitted p e -> absorbs (on_log J) e) ->
  preserves w (on_log J) (run_plan p).
Proof.
  intros Hev. unfold run_plan. apply preserves_try_finally.
  - unfold body, prologue.
    apply hoare_acquire; auto.
    { intros e He. apply Hev, em_acquire, He. }
    intros c. apply hoare_open_page; auto.
    { intros e He. apply Hev, em_open_page, He. }
    intros page. apply hoare_interact; auto.
    + intros s Hin. apply preserves_do_step.
      intros e He. apply Hev. eapply em_step; eauto.
    + apply preserves_verify. intros e He. apply Hev, em_verify, He.
  - apply preserves_cleanup. intros e He. apply Hev, em_cleanup, He.
Qed.

(** Every event in the log of a run is one the plan can emit. *)
Lemma log_emitted p e :
  In e (log (snd (run_plan p w initial))) -> emitted p e.
Proof.
  assert (H : on_log (Forall (emitted p)) (snd (run_plan p w initial))).
  { apply (preserves_run_plan (Forall (emitted p))).
    - intros e' He st Hst. unfold on_log in *; cbn. constructor; assumption.
    - constructor. }
  unfold on_log in H. rewrite Forall_forall in H. apply H.
Qed.
End WholeRun.

(** ** Acquisition and release *)

Lemma choose_app {A B} (f : A -> option B) xs ys :
  choose f (xs ++ ys) = choose f xs ++ choose f ys.
Proof.
  induction xs as [|x xs IH]; cbn; [reflexivity|].
  destruct (f x); cbn; rewrite IH; reflexivity.
Qed.

Lemma choose_In {A B} (f : A -> option B) xs y :
  In y (choose f xs) <-> exists x, In x xs /\ f x = Some y.
Proof.
  induction xs as [|x xs IH]; cbn.
  - split; [intros []|intros (x & [] & _)].
  - destruct (f x) eqn:E; cbn; rewrite IH; split.
    + intros [->|(x' & Hin & Hf)]; eauto.
    + intros (x' & [->|Hin] & Hf); [left; congruence|right; eauto].
    + intros (x' & Hin & Hf); eauto.
    + intros (x' & [->|Hin] & Hf); [congruence|eauto].
Qed.

Lemma release_calls_cons e lg :
  release_calls (e :: lg)
  = release_calls lg ++ match release_call e with Some c => [c] | None => [] end.
Proof.
  unfold release_calls. cbn [rev]. rewrite choose_app. cbn.
  destruct (release_call e); reflexivity.
Qed.

Lemma resource_eqb_eq r1 r2 : resource_eqb r1 r2 = true <-> r1 = r2.
Proof. destruct r1, r2; cbn; split; congruence. Qed.

Lemma absorbs_tracks e : page_level e -> absorbs tracks e.
Proof.
  intros [Hrel Hacq] st [Hv Hr]. split.
  - intros r. specialize (Hv r). specialize (Hacq r).
    destruct r; cbn in *; rewrite Hacq; cbn; exact Hv.
  - unfold record; cbn [log]. rewrite release_calls_cons, Hr, Hrel. reflexivity.
Qed.

Lemma from_open_page_level e : from_open_page e -> page_level e.
Proof. destruct 1; split; try reflexivity; intros r'; destruct r, r'; reflexivity. Qed.

Lemma from_step_level s e : from_step s e -> page_level e.
Proof. destruct 1; split; try reflexivity; intros r'; try destruct r; destruct r'; reflexivity. Qed.

Lemma from_verify_level v e : from_verify v e -> page_level e.
Proof. destruct 1; split; try reflexivity; intros r'; try destruct r; destruct r'; reflexivity. Qed.

Section Resources.
Variable w : world.

Lemma hoare_acquire_tracks (k : handle -> M unit) :
  (forall c, preserves w tracks (k c)) ->
  hoare w (fun st => st = initial) (acquire k) (fun _ => tracks).
Proof.
  intros Hk st ->.
  unfold acquire, async_playwright_start, chromium_launch, new_context,
    bind, call, ret, assign_pw, assign_browser, assign_context, initial, record.
  cbn.
  destruct (raises w [] StartPlaywright) eqn:E1; cbn.
  { split; [intros []; cbn; rewrite ?E1; reflexivity|reflexivity]. }
  destruct (raises w _ (Launch true launch_args)) eqn:E2; cbn.
  { split; [intros []; cbn; rewrite ?E1, ?E2; reflexivity|reflexivity]. }
  destruct (raises w _ NewContext) eqn:E3; cbn.
  { split; [intros []; cbn; rewrite ?E1, ?E2, ?E3; reflexivity|reflexivity]. }
  apply Hk.
  split; [intros []; cbn; rewrite ?E1, ?E2, ?E3; reflexivity|reflexivity].
Qed.

(** When the [try] body ends, normally or not, the variables say what
    was acquired and nothing has been released. *)
Lemma body_tracks p : tracks (snd (body p w initial)).
Proof.
  apply (hoare_acquire_tracks
           (fun c => open_page c (fun page =>
              interact c page (plan_steps p) (verify (plan_verdict p) c))));
    [|reflexivity].
  intros c. apply hoare_open_page; auto.
  { intros e He. apply absorbs_tracks, from_open_page_level, He. }
  intros page. apply hoare_interact; auto.
  - intros s _. apply preserves_do_step.
    intros e He. eapply absorbs_tracks, from_step_level, He.
  - apply preserves_verify.
    intros e He. eapply absorbs_tracks, from_verify_level, He.
Qed.
End Resources.

Lemma acquired_cons r e lg :
  acquired r (e :: lg)
  = (match e with Called o None => is_acquire r o | _ => false end
     || acquired r lg)%bool.
Proof. reflexivity. Qed.

#[local] Arguments release_calls : simpl never.
#[local] Arguments acquired : simpl never.

Section Cleanup.
Variable w : world.

Ltac run_cleanup :=
  unfold cleanup, bind, read, if_set, context_close, browser_close, pw_stop,
    call, ret, record; cbn;
  repeat match goal with
    | |- context [raises w ?l ?o] =>
        let E := fresh "E" in destruct (raises w l o) eqn:E; cbn
    end.

(** From a state that tracks the acquisitions, the cleanup block calls
    the releases of the held resources in order, up to the first that
    raises, and logs nothing else. *)
Lemma cleanup_releases st :
  tracks st ->
  let lg := log (snd (cleanup w st)) in
  releases_in_order (held lg) (release_calls lg) = true
  /\ rev lg = rev (log st) ++ map release_event (release_calls lg).
Proof.
  intros [Hv Hr].
  pose proof (Hv BrowserContext) as Hc.
  pose proof (Hv Browser) as Hb.
  pose proof (Hv Playwright) as Hp. clear Hv.
  destruct st as [p b c lg0]. unfold var_of in Hc, Hb, Hp.
  cbn [pw browser context log] in *. cbv zeta.
  destruct (acquired BrowserContext lg0) eqn:Ac;
    destruct (acquired Browser lg0) eqn:Ab;
    destruct (acquired Playwright lg0) eqn:Ap;
    subst p b c; run_cleanup;
    rewrite ?release_calls_cons, Hr; unfold held; cbn;
    rewrite ?acquired_cons; cbn; rewrite ?Ac, ?Ab, ?Ap; cbn; rewrite <- ?app_assoc, ?app_nil_r;
    split; reflexivity.
Qed.

(** The cleanup block only appends release calls, and it raises
    exactly when one of them raises. *)
Lemma cleanup_result st :
  exists evs,
    log (snd (cleanup w st)) = evs ++ log st
    /\ Forall from_cleanup evs
    /\ (release_raised evs = false -> fst (cleanup w st) = Ok tt)
    /\ (release_raised evs = true -> is_ok (fst (cleanup w st)) = false).
Proof.
  destruct st as [[p|] [b|] [c|] lg]; run_cleanup;
    match goal with
    | |- exists evs, ?l = _ /\ _ =>
        match l with
        | ?e1 :: ?e2 :: ?e3 :: lg => exists [e1; e2; e3]
        | ?e1 :: ?e2 :: lg => exists [e1; e2]
        | ?e1 :: lg => exists [e1]
        | lg => exists []
        end
    end;
    (split; [reflexivity|split; [repeat constructor|split; cbn; congruence]]).
Qed.
End Cleanup.

Lemma final_log_plan w s : final_log w s = log (snd (run_plan (plan_of s) w initial)).
Proof. unfold final_log, run. rewrite run_test_plan. reflexivity. Qed.

Lemma outcome_plan w s : outcome w s = fst (run_plan (plan_of s) w initial).
Proof. unfold outcome, run. rewrite run_test_plan. reflexivity. Qed.

Lemma run_plan_releases w p :
  let lg := log (snd (run_plan p w initial)) in
  releases_in_order (held lg) (release_calls lg) = true
  /\ rev lg = rev (log (snd (body p w initial)))
              ++ map release_event (release_calls lg).
Proof.
  pose proof (body_tracks w p) as Ht.
  pose proof (cleanup_releases w _ Ht) as Hc.
  unfold run_plan, try_finally.
  destruct (body p w initial) as [r st1]; cbn [snd] in *.
  destruct (cleanup w st1) as [[u|e] st2]; cbn [snd] in *; exact Hc.
Qed.

(** The log of a run is the log of the [try] body followed by release
    calls; without a raising release the run ends as the body did, and
    with one it raises. *)
Lemma run_plan_outcome w p :
  exists evs,
    log (snd (run_plan p w initial)) = evs ++ log (snd (body p w initial))
    /\ Forall from_cleanup evs
    /\ (release_raised evs = false ->
        fst (run_plan p w initial) = fst (body p w initial))
    /\ (release_raised evs = true -> is_ok (fst (run_plan p w initial)) = false).
Proof.
  unfold run_plan, try_finally.
  destruct (body p w initial) as [r st1]; cbn [fst snd].
  destruct (cleanup_result w st1) as (evs & Hlog & Hev & Hok & Hbad).
  exists evs. destruct (cleanup w st1) as [[[]|e] st2]; cbn [fst snd] in *.
  - split; [exact Hlog|split; [exact Hev|split; [reflexivity|]]].
    intros H. specialize (Hbad H). discriminate.
  - split; [exact Hlog|split; [exact Hev|split; [|reflexivity]]].
    intros H. specialize (Hok H). discriminate.
Qed.

Lemma released_In r lg :
  released r lg = true <-> In (r, None) (release_calls lg).
Proof.
  unfold released, release_calls. rewrite existsb_exists, choose_In. split.
  - intros (e & Hin & He). exists e. rewrite <- in_rev. split; [exact Hin|].
    destruct e as [o [x|]| |]; try discriminate. cbn.
    unfold is_release in He. destruct (release_of o); [|discriminate].
    apply resource_eqb_eq in He. subst. reflexivity.
  - intros (e & Hin & He). exists e. rewrite <- in_rev in Hin. split; [exact Hin|].
    destruct e as [o x| |]; try discriminate. cbn in He. unfold is_release.
    destruct (release_of o); [|discriminate].
    injection He as -> ->. apply resource_eqb_eq. reflexivity.
Qed.

Lemma release_raised_In lg :
  release_raised lg = true <-> exists r e, In (r, Some e) (release_calls lg).
Proof.
  unfold release_raised, release_calls. rewrite existsb_exists. split.
  - intros (ev & Hin & He). destruct ev as [o [x|]| |]; try discriminate.
    destruct (release_of o) as [r|] eqn:Er; [|discriminate].
    exists r, x. apply choose_In. exists (Called o (Some x)).
    rewrite <- in_rev. split; [exact Hin|]. cbn. rewrite Er. reflexivity.
  - intros (r & x & Hin). apply choose_In in Hin as (ev & Hin & He).
    rewrite <- in_rev in Hin. exists ev. split; [exact Hin|].
    destruct ev as [o y| |]; try discriminate. cbn in He.
    destruct (release_of o); [|discriminate]. injection He as -> ->. reflexivity.
Qed.

Lemma held_In r lg : In r (held lg) <-> acquired r lg = true.
Proof.
  unfold held. rewrite filter_In. split; [tauto|].
  intros H. split; [|exact H]. destruct r; cbn; tauto.
Qed.

Lemma releases_in_order_sound hs calls r :
  releases_in_order hs calls = true -> In (r, None) calls -> In r hs.
Proof.
  revert calls. induction hs as [|h hs IH]; intros calls H Hin.
  - destruct calls; [destruct Hin|discriminate].
  - destruct calls as [|[r' [e|]] calls]; cbn in H; try discriminate.
    + destruct calls; [|discriminate]. destruct Hin as [Hin|[]]. discriminate.
    + apply andb_prop in H as [Hr H]. apply resource_eqb_eq in Hr. subst r'.
      destruct Hin as [Hin|Hin]; [left; congruence|right; eauto].
Qed.

Lemma releases_in_order_complete hs calls r :
  releases_in_order hs calls = true ->
  (forall r' e, ~ In (r', Some e) calls) ->
  In r hs -> In (r, None) calls.
Proof.
  revert calls. induction hs as [|h hs IH]; intros calls H Hno Hin; [destruct Hin|].
  destruct calls as [|[r' [e|]] calls]; cbn in H; try discriminate.
  - exfalso. apply (Hno r' e). left; reflexivity.
  - apply andb_prop in H as [Hr H]. apply resource_eqb_eq in Hr. subst r'.
    destruct Hin as [->|Hin]; [left; reflexivity|right].
    apply IH; auto. intros r' e Hin'. apply (Hno r' e). right; exact Hin'.
Qed.

(** ** C1 and C10: the cleanup block *)

(** C1 as stated fails: in TC005, when closing the context raises, the
    browser was acquired and is never released. *)
Lemma release_skipped_after_failed_close :
  acquired Browser (final_log context_close_fails TC005) = true
  /\ released Browser (final_log context_close_fails TC005) = false.
Proof. split; vm_compute; reflexivity. Qed.

(** C1, amended: in every run of every script a resource is released only
    if it was acquired, and when no release call raises, the resources
    released by the cleanup block are exactly the resources acquired. *)
Theorem acquired_resources_released (w : world) (s : script) (r : resource) :
  (released r (final_log w s) = true -> acquired r (final_log w s) = true)
  /\ (release_raised (final_log w s) = false ->
      released r (final_log w s) = acquired r (final_log w s)).
Proof.
  rewrite final_log_plan.
  destruct (run_plan_releases w (plan_of s)) as [Hord _].
  set (lg := log (snd (run_plan (plan_of s) w initial))) in *.
  assert (Hsound : released r lg = true -> acquired r lg = true).
  { intros H. apply held_In. eapply releases_in_order_sound; [exact Hord|].
    apply released_In, H. }
  split; [exact Hsound|].
  intros Hno. destruct (acquired r lg) eqn:Ha.
  - apply released_In. eapply releases_in_order_complete; [exact Hord| |].
    + intros r' e Hin.
      assert (release_raised lg = true) by (apply release_raised_In; eauto).
      congruence.
    + apply held_In, Ha.
  - destruct (released r lg); [|reflexivity]. symmetry; apply Hsound; reflexivity.
Qed.

Lemma acquired_resources_released_witness :
  release_raised (final_log calm TC016) = false
  /\ released Browser (final_log calm TC016) = true
  /\ released Browser (final_log calm TC016)
     = acquired Browser (final_log calm TC016).
Proof.
  split; [vm_compute; reflexivity|].
  split; [vm_compute; reflexivity|].
  apply (acquired_resources_released calm TC016 Browser). vm_compute; reflexivity.
Defined.

(** C10: in every run of every script the release calls are the last
    events of the run; they go through the resources that were acquired
    in the order context, browser, Playwright session, and a release that
    raises is the last one called. *)
Theorem cleanup_releases_in_order (w : world) (s : script) :
  releases_in_order (held (final_log w s)) (release_calls (final_log w s)) = true
  /\ exists before,
       history w s = before ++ map release_event (release_calls (final_log w s))
       /\ release_calls (rev before) = [].
Proof.
  unfold history. rewrite final_log_plan.
  destruct (run_plan_releases w (plan_of s)) as [Hord Hrev].
  split; [exact Hord|].
  exists (rev (log (snd (body (plan_of s) w initial)))).
  split; [exact Hrev|]. rewrite rev_involutive. apply body_tracks.
Qed.

(** ** C5: timeouts *)

Lemma default_timeout_set_cons e lg :
  default_timeout_set (e :: lg)
  = (match e with
     | Called (SetDefaultTimeout ms) None => ms =? 5000
     | _ => false
     end || default_timeout_set lg)%bool.
Proof. reflexivity. Qed.

#[local] Arguments default_timeout_set : simpl never.

Section OpenPage.
Variable w : world.

(** [open_page], with an invariant that gets stronger once the default
    timeout is set. *)
Lemma hoare_open_page_gen (I I' : state -> Prop) Q c (k : page_id -> M unit) :
  (forall e st, I st ->
     Q (Raised e) (record (Called (SetDefaultTimeout 5000) (Some e)) st)) ->
  (forall st, I st -> I' (record (Called (SetDefaultTimeout 5000) None) st)) ->
  (forall e, from_open_page e -> absorbs I' e) ->
  (forall e st, I' st -> Q (Raised e) st) ->
  (forall page, hoare w I' (k page) Q) ->
  hoare w I (open_page c k) Q.
Proof.
  intros Hfail Hset Hev Hexit Hk. unfold open_page.
  apply hoare_bind with (R := fun _ => I').
  { intros st HI. unfold set_default_timeout, call. cbn.
    destruct (raises w (log st) (SetDefaultTimeout 5000)); cbn; auto. }
  intros _. apply hoare_seq; auto.
  { apply preserves_new_page; intro; apply Hev; constructor. }
  intros page. apply hoare_seq; auto.
  { apply preserves_call; intro; apply Hev; constructor. }
  intros _. apply hoare_seq; auto.
  { apply preserves_guarded_wait; intro; apply Hev; constructor. }
  intros _. apply hoare_seq; auto.
  { apply preserves_page_frames; intro; apply Hev; constructor. }
  intros frames. apply hoare_seq; auto.
  apply preserves_for_each. intros f.
  apply preserves_guarded_wait; intro; apply Hev; constructor.
Qed.
End OpenPage.

Lemma timed_absorbs_free e :
  (forall past, timing_ok e past = true) -> absorbs (on_log timed) e.
Proof. intros H st Hst. unfold on_log, timed in *. cbn. rewrite H, Hst. reflexivity. Qed.

Lemma timed_with_default_absorbs_free e :
  (forall past, timing_ok e past = true) -> absorbs (on_log timed_with_default) e.
Proof.
  intros H st [Hst Hd]. unfold on_log, timed_with_default in *. cbn [record log holds].
  rewrite H, Hst, default_timeout_set_cons, Hd, orb_true_r. split; reflexivity.
Qed.

Lemma timed_do_step w c page s :
  preserves w (on_log timed_with_default) (do_step c page s).
Proof.
  intros st [Hst Hd]. unfold on_log, timed_with_default.
  destruct s; unfold do_step, bind, context_pages, wait_for_timeout, click, fill,
    mouse_wheel, call, record, subscript_last; cbn;
    try (destruct (rev (pages_of w (log st))); cbn);
    repeat match goal with
      | |- context [raises w ?l ?o] => destruct (raises w l o); cbn
      end;
    rewrite ?default_timeout_set_cons, ?Hst, ?Hd; cbn; rewrite ?Hd; split; reflexivity.
Qed.

Lemma timed_run_plan w p :
  check_timeouts_fixed (plan_verdict p) = true ->
  holds timing_ok (log (snd (run_plan p w initial))) = true.
Proof.
  intros Hchk.
  assert (Hv : forall e, from_verify (plan_verdict p) e ->
                         forall past, timing_ok e past = true).
  { intros e He past. destruct He as [ps|sel timeout frame r Hin|r]; try reflexivity.
    unfold check_timeouts_fixed in Hchk. rewrite forallb_forall in Hchk.
    apply (Hchk _ Hin). }
  assert (H : preserves w (on_log timed) (run_plan p));
    [|apply (H initial); reflexivity].
  unfold run_plan. apply preserves_try_finally.
  - unfold body, prologue. apply hoare_acquire; auto.
    { intros e He. apply timed_absorbs_free. destruct He; reflexivity. }
    intros c.
    apply hoare_open_page_gen with (I' := on_log timed_with_default).
    + intros e st Hst. apply timed_absorbs_free; [reflexivity|exact Hst].
    + intros st Hst. unfold on_log, timed, timed_with_default in *. cbn.
      rewrite Hst. split; reflexivity.
    + intros e He. apply timed_with_default_absorbs_free. destruct He; reflexivity.
    + intros e st [Hst _]. exact Hst.
    + intros page. apply hoare_interact.
      * intros s _. apply timed_do_step.
      * intros e st [Hst _]. exact Hst.
      * eapply hoare_weaken with (Q' := fun _ => on_log timed_with_default).
        -- apply preserves_verify. intros e He.
           apply timed_with_default_absorbs_free. apply Hv, He.
        -- auto.
        -- intros r st [Hst _]. exact Hst.
  - apply preserves_cleanup. intros e He. apply timed_absorbs_free.
    destruct He; reflexivity.
Qed.

(** ** C9: which element a click or fill acts on *)

Lemma targeted_absorbs_free e :
  (forall past, targets_last_page e past = true) -> absorbs (on_log targeted) e.
Proof. intros H st Hst. unfold on_log, targeted in *. cbn. rewrite H, Hst. reflexivity. Qed.

Lemma targeted_do_step w c page s :
  step_uses_xpath s = true ->
  preserves w (on_log targeted) (do_step c page s).
Proof.
  intros Hx st Hst. unfold on_log, targeted in *.
  destruct s; unfold do_step, bind, context_pages, wait_for_timeout, click, fill,
    mouse_wheel, call, record, subscript_last;
    cbn [step_uses_xpath] in Hx; unfold is_xpath in Hx; cbn;
    try (destruct (rev (pages_of w (log st))) as [|last others] eqn:Er; cbn);
    repeat match goal with
      | |- context [raises w ?l ?o] => destruct (raises w l o); cbn
      end;
    rewrite ?Er, ?Hst; cbn; rewrite ?Nat.eqb_refl, ?Hx; reflexivity.
Qed.

Lemma targeted_run_plan w p :
  forallb step_uses_xpath (plan_steps p) = true ->
  holds targets_last_page (log (snd (run_plan p w initial))) = true.
Proof.
  intros Hx. rewrite forallb_forall in Hx.
  assert (H : preserves w (on_log targeted) (run_plan p));
    [|apply (H initial); reflexivity].
  unfold run_plan. apply preserves_try_finally.
  - unfold body, prologue. apply hoare_acquire; auto.
    { intros e He. apply targeted_absorbs_free. destruct He; reflexivity. }
    intros c. apply hoare_open_page; auto.
    { intros e He. apply targeted_absorbs_free. destruct He; reflexivity. }
    intros page. apply hoare_interact; auto.
    + intros s Hin. apply targeted_do_step, Hx, Hin.
    + apply preserves_verify. intros e He. apply targeted_absorbs_free.
      destruct He; reflexivity.
  - apply preserves_cleanup. intros e He. apply targeted_absorbs_free.
    destruct He; reflexivity.
Qed.

(** C9: in every run of every script, every click and every fill acts on
    the first match ([.nth(0)]) of an XPath locator taken on the last
    page of [context.pages], which the script read again just before the
    pause that precedes the action. *)
Theorem interactions_target_last_page (w : world) (s : script) :
  holds targets_last_page (final_log w s) = true.
Proof.
  rewrite final_log_plan. apply targeted_run_plan. destruct s; reflexivity.
Qed.

(** ** C8, C2: the command sequence *)

Lemma commands_cons e lg :
  commands (e :: lg)
  = commands lg ++ match command_of e with Some c => [c] | None => [] end.
Proof.
  unfold commands. cbn [rev]. rewrite choose_app. cbn.
  destruct (command_of e); reflexivity.
Qed.

#[local] Arguments commands : simpl never.

Lemma is_prefix_refl {A} (xs : list A) : is_prefix xs xs.
Proof. exists []. rewrite app_nil_r. reflexivity. Qed.

Lemma is_prefix_nil {A} (xs : list A) : is_prefix [] xs.
Proof. exists xs. reflexivity. Qed.

Lemma is_prefix_app {A} (xs ys zs : list A) :
  is_prefix ys zs -> is_prefix (xs ++ ys) (xs ++ zs).
Proof. intros [t ->]. exists t. rewrite app_assoc. reflexivity. Qed.

Lemma is_prefix_weaken {A} (xs ys zs : list A) :
  is_prefix xs ys -> is_prefix xs (ys ++ zs).
Proof. intros [t ->]. exists (t ++ zs). rewrite app_assoc. reflexivity. Qed.

Section Emits.
Variable w : world.

Lemma emits_ret {A} (a : A) : emits w (ret a) [].
Proof.
  intros st. exists []. cbn. rewrite app_nil_r.
  split; [reflexivity|split; [apply is_prefix_nil|reflexivity]].
Qed.

(** A computation that logs nothing emits nothing. *)
Lemma emits_silent {A} (m : M A) :
  (forall st, log (snd (m w st)) = log st) -> emits w m [].
Proof.
  intros H st. exists []. rewrite H, app_nil_r.
  split; [reflexivity|split; [apply is_prefix_nil|reflexivity]].
Qed.

Lemma emits_bind {A B} (m : M A) (f : A -> M B) cs1 cs2 :
  emits w m cs1 -> (forall a, emits w (f a) cs2) ->
  emits w (bind m f) (cs1 ++ cs2).
Proof.
  intros Hm Hf st. destruct (Hm st) as (xs & Hlog & Hpre & Hok).
  unfold bind. destruct (m w st) as [[a|e] st1]; cbn [fst snd] in *.
  - destruct (Hf a st1) as (ys & Hlog2 & Hpre2 & Hok2).
    exists (cs1 ++ ys). rewrite (Hok eq_refl) in Hlog.
    rewrite Hlog2, Hlog, app_assoc.
    split; [reflexivity|split; [apply is_prefix_app, Hpre2|]].
    intros H. rewrite (Hok2 H). reflexivity.
  - exists xs. split; [exact Hlog|split; [apply is_prefix_weaken, Hpre|]].
    discriminate.
Qed.

Lemma emits_call o : emits w (call o) (op_commands o).
Proof.
  intros st. exists (op_commands o). cbn [call fst snd record log].
  rewrite commands_cons.
  split; [reflexivity|split; [apply is_prefix_refl|reflexivity]].
Qed.

(** A call under [try ... except] whose handler logs nothing: the call
    is issued whatever happens next. *)
Lemma emits_try_call o catches (handler : exn -> M unit) :
  (forall e st, log (snd (handler e w st)) = log st) ->
  emits w (try_except (call o) catches handler) (op_commands o).
Proof.
  intros Hh st. exists (op_commands o).
  split; [|split; [apply is_prefix_refl|reflexivity]].
  unfold try_except, call. cbn.
  destruct (raises w (log st) o) as [e|]; cbn.
  - destruct (catches e); cbn; rewrite ?Hh; cbn; apply commands_cons.
  - apply commands_cons.
Qed.

Lemma emits_for_each_nil {A} (xs : list A) (f : A -> M unit) :
  (forall x, emits w (f x) []) -> emits w (for_each xs f) [].
Proof.
  intros Hf. induction xs as [|x xs IH]; cbn [for_each].
  - apply emits_ret.
  - change (@nil op) with (@nil op ++ []). apply emits_bind; auto.
Qed.

Lemma emits_new_page c : emits w (new_page c) [NewPage].
Proof.
  intros st. exists [NewPage]. unfold new_page, call. cbn.
  split; [|split; [apply is_prefix_refl|reflexivity]].
  destruct (raises w (log st) NewPage); cbn; apply commands_cons.
Qed.

Lemma emits_subscript_last {A} (xs : list A) : emits w (subscript_last xs) [].
Proof.
  apply emits_silent. intros st. unfold subscript_last.
  destruct (rev xs); reflexivity.
Qed.

Lemma emits_context_pages c : emits w (context_pages c) [].
Proof.
  intros st. exists []. cbn [context_pages fst snd record log].
  rewrite commands_cons. cbn.
  split; [reflexivity|split; [apply is_prefix_nil|reflexivity]].
Qed.

Lemma emits_page_frames p : emits w (page_frames p) [].
Proof.
  intros st. exists []. cbn [page_frames fst snd record log].
  rewrite commands_cons. cbn.
  split; [reflexivity|split; [apply is_prefix_nil|reflexivity]].
Qed.

Lemma emits_eq {A} (m : M A) cs cs' : emits w m cs -> cs = cs' -> emits w m cs'.
Proof. intros H <-. exact H. Qed.

Lemma emits_interact c page steps k cs :
  emits w k cs ->
  emits w (interact c page steps k) (flat_map step_commands steps ++ cs).
Proof.
  intros Hk. induction steps as [|s rest IH]; [exact Hk|].
  cbn [flat_map]. rewrite <- app_assoc.
  destruct s; cbn [interact step_commands].
  - change (emits w
             (pages <- context_pages c ;; frame <- subscript_last pages ;;
              wait_for_timeout page 3000 ;; click (nth_ (locate frame sel) 0) 5000 ;;
              interact c page rest k)
             ([] ++ [] ++ [WaitForTimeout 0%nat 3000]
              ++ [Click (nth_ (locate 0%nat sel) 0) 5000]
              ++ (flat_map step_commands rest ++ cs))).
    apply emits_bind; [apply emits_context_pages|]. intros ps.
    apply emits_bind; [apply emits_subscript_last|]. intros frame.
    apply emits_bind; [exact (emits_call _)|]. intros _.
    apply emits_bind; [exact (emits_call _)|]. intros _. exact IH.
  - change (emits w
             (pages <- context_pages c ;; frame <- subscript_last pages ;;
              wait_for_timeout page 3000 ;; fill (nth_ (locate frame sel) 0) value ;;
              interact c page rest k)
             ([] ++ [] ++ [WaitForTimeout 0%nat 3000]
              ++ [Fill (nth_ (locate 0%nat sel) 0) value]
              ++ (flat_map step_commands rest ++ cs))).
    apply emits_bind; [apply emits_context_pages|]. intros ps.
    apply emits_bind; [apply emits_subscript_last|]. intros frame.
    apply emits_bind; [exact (emits_call _)|]. intros _.
    apply emits_bind; [exact (emits_call _)|]. intros _. exact IH.
  - change (emits w (mouse_wheel page dx dy ;; interact c page rest k)
             ([MouseWheel 0%nat dx dy] ++ (flat_map step_commands rest ++ cs))).
    apply emits_bind; [exact (emits_call _)|]. intros _. exact IH.
Qed.
End Emits.

Section EmitsRun.
Variable w : world.

Lemma is_prefix_of_nil {A} (xs : list A) : is_prefix xs [] -> xs = [].
Proof. intros [t H]. destruct xs; [reflexivity|discriminate]. Qed.

Lemma emits_try_finally {A} (m : M A) fin cs :
  emits w m cs -> emits w fin [] -> emits w (try_finally m fin) cs.
Proof.
  intros Hm Hf st. destruct (Hm st) as (xs & Hlog & Hpre & Hok).
  unfold try_finally. destruct (m w st) as [r st1]; cbn [fst snd] in *.
  destruct (Hf st1) as (ys & Hlog2 & Hpre2 & _).
  apply is_prefix_of_nil in Hpre2. subst ys. rewrite app_nil_r in Hlog2.
  exists xs. destruct (fin w st1) as [[u|e] st2]; cbn [fst snd] in *;
    (split; [congruence|split; [exact Hpre|]]); [exact Hok|discriminate].
Qed.

Lemma emits_if_set v (f : handle -> M unit) :
  (forall h, emits w (f h) []) -> emits w (if_set v f) [].
Proof. intros H. destruct v; cbn; [apply H|apply emits_ret]. Qed.

Lemma emits_cleanup : emits w cleanup [].
Proof.
  unfold cleanup.
  change (@nil op) with (@nil op ++ [] ++ [] ++ [] ++ [] ++ []).
  apply emits_bind; [apply emits_silent; reflexivity|]. intros c.
  apply emits_bind; [apply emits_if_set; intro; exact (emits_call w _)|]. intros _.
  apply emits_bind; [apply emits_silent; reflexivity|]. intros b.
  apply emits_bind; [apply emits_if_set; intro; exact (emits_call w _)|]. intros _.
  apply emits_bind; [apply emits_silent; reflexivity|]. intros p.
  apply emits_if_set; intro; exact (emits_call w _).
Qed.

Lemma emits_expect_all frame checks k cs :
  emits w k cs ->
  emits w (expect_all frame checks k) (map check_command checks ++ cs).
Proof.
  intros Hk. induction checks as [|[sel timeout] rest IH]; [exact Hk|].
  cbn [expect_all map].
  change (emits w
            (expect_to_be_visible (first (locate frame sel)) timeout ;;
             expect_all frame rest k)
            ([check_command (sel, timeout)] ++ (map check_command rest ++ cs))).
  apply emits_bind; [exact (emits_call w _)|]. intros _. exact IH.
Qed.

Lemma emits_verify v c :
  emits w (verify v c) (map check_command (checks_of v)).
Proof.
  unfold verify.
  change (map check_command (checks_of v))
    with ([] ++ [] ++ map check_command (checks_of v)).
  apply emits_bind; [apply emits_context_pages|]. intros ps.
  apply emits_bind; [apply emits_subscript_last|]. intros frame.
  destruct v as [sel timeout message|checks]; cbn [checks_of].
  - change (map check_command [(sel, timeout)])
      with ([check_command (sel, timeout)] ++ []).
    apply emits_bind; [|intros _; exact (emits_call w _)].
    apply emits_try_call; reflexivity.
  - rewrite <- (app_nil_r (map check_command checks)).
    apply emits_expect_all. exact (emits_call w _).
Qed.

Lemma emits_open_page c (k : page_id -> M unit) cs :
  (forall page, emits w (k page) cs) ->
  emits w (open_page c k) ([SetDefaultTimeout 5000; NewPage] ++ navigate_phase ++ cs).
Proof.
  intros Hk. unfold open_page.
  change ([SetDefaultTimeout 5000; NewPage] ++ navigate_phase ++ cs)
    with ([SetDefaultTimeout 5000] ++ [NewPage]
          ++ [Goto 0%nat "http://localhost:5322" "commit" 10000]
          ++ [PageWaitForLoadState 0%nat "domcontentloaded" 3000]
          ++ [] ++ [] ++ cs).
  apply emits_bind; [exact (emits_call w _)|]. intros _.
  apply emits_bind; [apply emits_new_page|]. intros page.
  apply emits_bind; [exact (emits_call w _)|]. intros _.
  apply emits_bind;
    [apply emits_try_call; reflexivity|]. intros _.
  apply emits_bind; [apply emits_page_frames|]. intros frames.
  apply emits_bind; [|intros _; apply Hk].
  apply emits_for_each_nil. intros f.
  apply emits_try_call; reflexivity.
Qed.

Lemma emits_acquire (k : handle -> M unit) cs :
  (forall c, emits w (k c) cs) ->
  emits w (acquire k) ([StartPlaywright; Launch true launch_args; NewContext] ++ cs).
Proof.
  intros Hk. unfold acquire, async_playwright_start, chromium_launch, new_context.
  change ([StartPlaywright; Launch true launch_args; NewContext] ++ cs)
    with (([StartPlaywright] ++ []) ++ []
          ++ ([Launch true launch_args] ++ []) ++ []
          ++ ([NewContext] ++ []) ++ [] ++ cs).
  apply emits_bind.
  { apply emits_bind; [exact (emits_call w _)|intros _; apply emits_ret]. }
  intros pw'. apply emits_bind; [apply emits_silent; reflexivity|]. intros _.
  apply emits_bind.
  { apply emits_bind; [exact (emits_call w _)|intros _; apply emits_ret]. }
  intros browser'. apply emits_bind; [apply emits_silent; reflexivity|]. intros _.
  apply emits_bind.
  { apply emits_bind; [exact (emits_call w _)|intros _; apply emits_ret]. }
  intros context'. apply emits_bind; [apply emits_silent; reflexivity|]. intros _.
  apply Hk.
Qed.

Lemma emits_run_plan p : emits w (run_plan p) (plan_commands p).
Proof.
  unfold run_plan. apply emits_try_finally; [|apply emits_cleanup].
  unfold body, prologue, plan_commands.
  eapply emits_eq.
  - apply emits_acquire. intros c. apply emits_open_page. intros page.
    apply emits_interact. apply emits_verify.
  - reflexivity.
Qed.

(** The commands of a run are a prefix of the plan's, and all of them
    when the run ends normally. *)
Lemma commands_run_plan p :
  is_prefix (commands (log (snd (run_plan p w initial)))) (plan_commands p)
  /\ (fst (run_plan p w initial) = Ok tt ->
      commands (log (snd (run_plan p w initial))) = plan_commands p).
Proof.
  destruct (emits_run_plan p initial) as (xs & Hlog & Hpre & Hok).
  change (commands (log initial)) with (@nil op) in Hlog. cbn [app] in Hlog.
  rewrite Hlog. split; [exact Hpre|].
  intros H. apply Hok. rewrite H. reflexivity.
Qed.
End EmitsRun.

Lemma is_prefix_comparable {A} (xs ys zs : list A) :
  is_prefix xs zs -> is_prefix ys zs -> is_prefix xs ys \/ is_prefix ys xs.
Proof.
  revert ys zs. induction xs as [|x xs IH]; intros ys zs Hx Hy.
  - left. apply is_prefix_nil.
  - destruct ys as [|y ys]; [right; apply is_prefix_nil|].
    destruct Hx as [t1 ->]. destruct Hy as [t2 H]. cbn in H.
    injection H as <- H.
    destruct (IH ys (xs ++ t1)) as [[t ->]|[t ->]].
    + exists t1; reflexivity.
    + exists t2; exact H.
    + left. exists t. reflexivity.
    + right. exists t. reflexivity.
Qed.

(** ** C4: the load-state waits *)

Section Blames.
Variable w : world.

Lemma blames_never_raises {A} (m : M A) :
  (forall st, is_ok (fst (m w st)) = true) -> blames w m.
Proof. intros H st Hr. rewrite H in Hr. discriminate. Qed.

Lemma blames_bind {A B} (m : M A) (f : A -> M B) :
  blames w m -> (forall a, blames w (f a)) -> blames w (bind m f).
Proof.
  intros Hm Hf st. specialize (Hm st). unfold bind.
  destruct (m w st) as [[a|e] st1]; cbn [fst snd] in *.
  - apply Hf.
  - exact Hm.
Qed.

Lemma blames_call o : is_load_wait o = false -> blames w (call o).
Proof.
  intros Ho st. cbn. destruct (raises w (log st) o); cbn; [|discriminate].
  rewrite Ho. reflexivity.
Qed.

Lemma blames_guarded_wait o :
  blames w (try_except (call o) isinstance_Error (fun _ => ret tt)).
Proof.
  intros st. unfold try_except, call. cbn.
  destruct (raises w (log st) o) as [e|]; cbn; [|discriminate].
  destruct (isinstance_Error e) eqn:E; cbn; [discriminate|].
  rewrite E, andb_false_r. reflexivity.
Qed.

Lemma blames_try_raise o catches e' :
  is_load_wait o = false ->
  blames w (try_except (call o) catches (fun _ => @raise unit e')).
Proof.
  intros Ho st. unfold try_except, call. cbn.
  destruct (raises w (log st) o) as [e|]; cbn; [|discriminate].
  destruct (catches e); cbn; rewrite Ho; reflexivity.
Qed.

Lemma blames_for_each {A} (xs : list A) (f : A -> M unit) :
  (forall x, blames w (f x)) -> blames w (for_each xs f).
Proof.
  intros Hf. induction xs as [|x xs IH]; cbn [for_each].
  - apply blames_never_raises. reflexivity.
  - apply blames_bind; auto.
Qed.

Lemma blames_new_page c : blames w (new_page c).
Proof.
  intros st. unfold new_page, call. cbn.
  destruct (raises w (log st) NewPage); cbn; [reflexivity|discriminate].
Qed.

(** [frame = context.pages[-1]]: an IndexError is blamed on the empty
    page list just read. *)
Lemma blames_last_page {B} c (k : page_id -> M B) :
  (forall frame, blames w (k frame)) ->
  blames w (pages <- context_pages c ;; frame <- subscript_last pages ;; k frame).
Proof.
  intros Hk st. unfold bind, context_pages, subscript_last. cbn.
  destruct (pages_of w (log st)) as [|p ps] eqn:E; cbn.
  - reflexivity.
  - destruct (rev ps ++ [p]) as [|x xs] eqn:Er.
    + destruct (rev ps); discriminate.
    + cbn. apply Hk.
Qed.

Lemma blames_interact c page steps k :
  blames w k -> blames w (interact c page steps k).
Proof.
  intros Hk. induction steps as [|s rest IH]; [exact Hk|].
  destruct s; cbn [interact].
  - apply blames_last_page. intros frame.
    apply blames_bind; [apply blames_call; reflexivity|]. intros _.
    apply blames_bind; [apply blames_call; reflexivity|]. intros _. exact IH.
  - apply blames_last_page. intros frame.
    apply blames_bind; [apply blames_call; reflexivity|]. intros _.
    apply blames_bind; [apply blames_call; reflexivity|]. intros _. exact IH.
  - apply blames_bind; [apply blames_call; reflexivity|]. intros _. exact IH.
Qed.

Lemma blames_expect_all frame checks k :
  blames w k -> blames w (expect_all frame checks k).
Proof.
  intros Hk. induction checks as [|[sel timeout] rest IH]; [exact Hk|].
  cbn [expect_all].
  apply blames_bind; [apply blames_call; reflexivity|]. intros _. exact IH.
Qed.

Lemma blames_verify v c : blames w (verify v c).
Proof.
  unfold verify. apply blames_last_page. intros frame.
  destruct v as [sel timeout message|checks].
  - apply blames_bind; [apply blames_try_raise; reflexivity|]. intros _.
    apply blames_call; reflexivity.
  - apply blames_expect_all. apply blames_call; reflexivity.
Qed.

Lemma blames_body p : blames w (body p).
Proof.
  unfold body, prologue, acquire, open_page, async_playwright_start,
    chromium_launch, new_context.
  repeat first
    [ apply blames_interact; apply blames_verify
    | apply blames_guarded_wait
    | apply blames_for_each; intros ?
    | apply blames_new_page
    | apply blames_call; reflexivity
    | apply blames_never_raises; reflexivity
    | apply blames_bind; [|intros ?] ].
Qed.

Lemma forallb_app_false_r {A} (f : A -> bool) xs ys :
  forallb f ys = false -> forallb f (xs ++ ys) = false.
Proof. intros H. rewrite forallb_app, H, andb_false_r. reflexivity. Qed.

Lemma from_cleanup_harmful evs :
  Forall from_cleanup evs -> forallb harmless evs = true ->
  release_raised evs = false.
Proof.
  induction 1 as [|e evs He _ IH]; [reflexivity|].
  intros H. cbn [forallb] in H. apply andb_prop in H as [H1 H2].
  unfold release_raised in *. cbn [existsb]. rewrite (IH H2), orb_false_r.
  destruct He as [[x|]|[x|]|[x|]]; try reflexivity; discriminate.
Qed.

(** A run that raises has a harmful event in its log. *)
Lemma blames_run_plan p : blames w (run_plan p).
Proof.
  intros st Hr.
  destruct (forallb harmless (log (snd (run_plan p w st)))) eqn:Hall;
    [exfalso|reflexivity].
  revert Hr Hall. unfold run_plan, try_finally.
  pose proof (blames_body p st) as Hb.
  destruct (body p w st) as [r st1]; cbn [fst snd] in *.
  destruct (cleanup_result w st1) as (evs & Hlog & Hev & Hok & _).
  destruct (cleanup w st1) as [[u|e] st2]; cbn [fst snd] in *;
    intros Hr Hall; rewrite Hlog, forallb_app in Hall;
    apply andb_prop in Hall as [H1 H2].
  - rewrite (Hb Hr) in H2. discriminate.
  - specialize (Hok (from_cleanup_harmful evs Hev H1)). discriminate.
Qed.
End Blames.

(** C4 as stated fails: in TC005, when the wait for the page's load state
    ends with an exception that is not a Playwright error, the exception
    leaves the script and no interaction step follows. *)
Lemma wait_interruption_propagates :
  In (Called (PageWaitForLoadState 1%nat "domcontentloaded" 3000)
        (Some (OtherException "CancelledError")))
     (final_log wait_interrupted TC005)
  /\ outcome wait_interrupted TC005 = Raised (OtherException "CancelledError")
  /\ commands (final_log wait_interrupted TC005) = open_phase ++ navigate_phase.
Proof.
  split; [vm_compute; do 3 right; left; reflexivity|].
  split; vm_compute; reflexivity.
Qed.

(** ** C3: the wrapped assertion *)

Lemma assertion_failed_cons e lg :
  assertion_failed (e :: lg)
  = (match e with
     | Called (ExpectVisible _ _) (Some x) => isinstance_AssertionError x
     | _ => false
     end || assertion_failed lg)%bool.
Proof. reflexivity. Qed.

#[local] Arguments assertion_failed : simpl never.

Lemma unasserted_absorbs e :
  match e with Called (ExpectVisible _ _) _ => False | _ => True end ->
  absorbs (on_log unasserted) e.
Proof.
  intros He st Hst. unfold on_log, unasserted in *. cbn [record log].
  rewrite assertion_failed_cons, Hst.
  destruct e as [[] [x|]| |]; try reflexivity; destruct He.
Qed.

Lemma release_raised_app xs ys :
  release_raised (xs ++ ys) = (release_raised xs || release_raised ys)%bool.
Proof. apply existsb_app. Qed.

Lemma assertion_failed_cleanup evs lg :
  Forall from_cleanup evs -> assertion_failed (evs ++ lg) = assertion_failed lg.
Proof.
  induction 1 as [|e evs He _ IH]; [reflexivity|].
  cbn [app]. rewrite assertion_failed_cons, IH. destruct He; reflexivity.
Qed.

Section Wrapped.
Variable w : world.

(** The wrapped assertion: a library AssertionError becomes the
    script's own. *)
Lemma hoare_verify_wrapped sel timeout message c :
  hoare w (on_log unasserted) (verify (Wrapped sel timeout message) c)
    (fun r st => assertion_failed (log st) = true ->
                 r = Raised (AssertionError message)).
Proof.
  intros st Hst. unfold on_log, unasserted in Hst.
  unfold verify, bind, context_pages, subscript_last, try_except,
    expect_to_be_visible, asyncio_sleep, call, raise, record. cbn.
  destruct (rev (pages_of w (log st))) as [|frame others]; cbn.
  { rewrite assertion_failed_cons, Hst. discriminate. }
  destruct (raises w _ (ExpectVisible _ timeout)) as [x|] eqn:E; cbn.
  - destruct (isinstance_AssertionError x) eqn:Ex; cbn; [reflexivity|].
    rewrite !assertion_failed_cons, Ex, Hst. discriminate.
  - destruct (raises w _ (Sleep 5)); cbn;
      rewrite !assertion_failed_cons, Hst; discriminate.
Qed.

Lemma body_wrapped p sel timeout message :
  plan_verdict p = Wrapped sel timeout message ->
  assertion_failed (log (snd (body p w initial))) = true ->
  fst (body p w initial) = Raised (AssertionError message).
Proof.
  intros Hv.
  assert (H : hoare w (on_log unasserted) (body p)
                (fun r st => assertion_failed (log st) = true ->
                             r = Raised (AssertionError message)));
    [|apply (H initial); reflexivity].
  assert (Hexit : forall (e : exn) st, on_log unasserted st ->
            assertion_failed (log st) = true ->
            @Raised unit e = Raised (AssertionError message)).
  { intros e st Hst H. unfold on_log, unasserted in Hst. congruence. }
  unfold body, prologue. apply hoare_acquire; auto.
  { intros e He. apply unasserted_absorbs. destruct He; exact I. }
  intros c. apply hoare_open_page; auto.
  { intros e He. apply unasserted_absorbs. destruct He; exact I. }
  intros page. apply hoare_interact; auto.
  - intros s _. apply preserves_do_step. intros e He.
    apply unasserted_absorbs. destruct He; exact I.
  - rewrite Hv. apply hoare_verify_wrapped.
Qed.
End Wrapped.

(** C3 as stated fails: TC014 does not wrap its assertions, so when the
    expected text never shows the library's own AssertionError leaves
    the script. *)
Lemma raw_assertion_error_in_TC014 :
  assertion_failed (final_log text_never_visible TC014) = true
  /\ failure_message (final_verdict TC014) = None
  /\ outcome text_never_visible TC014
     = Raised (AssertionError "Locator expected to be visible").
Proof. repeat split; vm_compute; reflexivity. Qed.

(** ** C6: the final assertions and the outcome *)

Lemma checks_made_cons e lg :
  checks_made (e :: lg)
  = checks_made lg ++ match check_made e with Some c => [c] | None => [] end.
Proof.
  unfold checks_made. cbn [rev]. rewrite choose_app. cbn.
  destruct (check_made e); reflexivity.
Qed.

Lemma sleep_raised_cons e lg :
  sleep_raised (e :: lg)
  = (match e with Called (Sleep _) (Some _) => true | _ => false end
     || sleep_raised lg)%bool.
Proof. reflexivity. Qed.

#[local] Arguments checks_made : simpl never.
#[local] Arguments sleep_raised : simpl never.

Lemma checked_absorbs done e :
  match e with
  | Called (ExpectVisible _ _) _ | Called (Sleep _) _ => False
  | _ => True
  end ->
  absorbs (on_log (checked done)) e.
Proof.
  intros He st [Hc Hs]. unfold on_log, checked in *. cbn [record log].
  rewrite checks_made_cons, sleep_raised_cons, Hc, Hs.
  destruct e as [[] [x|]| |]; cbn; rewrite ?app_nil_r; try (split; reflexivity);
    destruct He.
Qed.

Lemma checked_cleanup done evs lg :
  Forall from_cleanup evs -> (checked done (evs ++ lg) <-> checked done lg).
Proof.
  induction 1 as [|e evs He _ IH]; [reflexivity|].
  rewrite <- IH. unfold checked. cbn [app].
  rewrite checks_made_cons, sleep_raised_cons.
  destruct He; cbn; rewrite app_nil_r; reflexivity.
Qed.

Section Verdict.
Variable w : world.

Lemma hoare_sleep done :
  hoare w (on_log (checked done)) (asyncio_sleep 5)
    (fun r st => r = Ok tt <-> checked done (log st)).
Proof.
  intros st [Hc Hs]. unfold checked, asyncio_sleep, call. cbn.
  rewrite checks_made_cons, sleep_raised_cons, Hc, Hs. cbn. rewrite app_nil_r.
  destruct (raises w (log st) (Sleep 5)); cbn; split; try discriminate; auto.
  intros [_ H]; discriminate.
Qed.

Lemma hoare_expect_all frame cs done :
  hoare w (on_log (checked done)) (expect_all frame cs (asyncio_sleep 5))
    (fun r st => r = Ok tt <-> checked (done ++ cs) (log st)).
Proof.
  revert done. induction cs as [|[sel timeout] rest IH]; intros done.
  - rewrite app_nil_r. apply hoare_sleep.
  - cbn [expect_all]. intros st [Hc Hs].
    unfold bind, expect_to_be_visible, call. cbn.
    destruct (raises w (log st) (ExpectVisible _ timeout)) as [x|] eqn:E; cbn.
    + unfold checked. rewrite checks_made_cons, Hc. cbn.
      split; [discriminate|]. intros [H _]. exfalso.
      rewrite map_app in H. apply app_inv_head in H. discriminate.
    + assert (Hpre : on_log (checked (done ++ [(sel, timeout)]))
                       (record (Called (ExpectVisible (first (locate frame sel)) timeout) None) st)).
      { unfold on_log, checked. cbn [record log].
        rewrite checks_made_cons, sleep_raised_cons, Hc, Hs, map_app.
        split; reflexivity. }
      specialize (IH _ _ Hpre). rewrite <- app_assoc in IH. exact IH.
Qed.

Lemma hoare_verify_checked v c :
  checks_of v <> [] ->
  hoare w (on_log (checked [])) (verify v c)
    (fun r st => r = Ok tt <-> checked (checks_of v) (log st)).
Proof.
  intros Hne st [Hc Hs].
  unfold verify, bind, context_pages, subscript_last. cbn.
  assert (Hpre : on_log (checked [])
                   (record (PagesRead (pages_of w (log st))) st)).
  { apply checked_absorbs; [exact I|split; assumption]. }
  destruct (rev (pages_of w (log st))) as [|frame others]; cbn.
  - split; [discriminate|]. intros [H _]. destruct Hpre as [Hp _].
    cbn [record log] in Hp. rewrite Hp in H.
    destruct (checks_of v); [contradiction|discriminate].
  - destruct v as [sel timeout message|checks]; cbn [checks_of].
    + destruct Hpre as [Hp Hq]. cbn [record log] in Hp, Hq.
      unfold try_except, expect_to_be_visible, call, raise. cbn.
      destruct (raises w _ (ExpectVisible _ timeout)) as [x|] eqn:E; cbn.
      * assert (Hno : ~ checked [(sel, timeout)]
                        (Called (ExpectVisible (first (locate frame sel)) timeout)
                           (Some x) :: PagesRead (pages_of w (log st)) :: log st)).
        { intros [H _]. rewrite checks_made_cons, Hp in H. discriminate. }
        destruct (isinstance_AssertionError x); cbn;
          (split; [discriminate|intros H; destruct (Hno H)]).
      * refine (hoare_sleep [(sel, timeout)]
                  (record (Called (ExpectVisible (first (locate frame sel)) timeout) None)
                     (record (PagesRead (pages_of w (log st))) st)) _).
        unfold on_log, checked. cbn [record log].
        rewrite checks_made_cons, sleep_raised_cons, Hp, Hq. split; reflexivity.
    + apply (hoare_expect_all frame checks [] _ Hpre).
Qed.

Lemma body_checked p :
  checks_of (plan_verdict p) <> [] ->
  fst (body p w initial) = Ok tt
  <-> checked (checks_of (plan_verdict p)) (log (snd (body p w initial))).
Proof.
  intros Hne.
  assert (H : hoare w (on_log (checked [])) (body p)
                (fun r st => r = Ok tt
                             <-> checked (checks_of (plan_verdict p)) (log st)));
    [|apply (H initial); split; reflexivity].
  assert (Hexit : forall (e : exn) st, on_log (checked []) st ->
            @Raised unit e = Ok tt
            <-> checked (checks_of (plan_verdict p)) (log st)).
  { intros e st [Hc _]. split; [discriminate|]. intros [H _].
    rewrite Hc in H. destruct (checks_of (plan_verdict p));
      [contradiction|discriminate]. }
  unfold body, prologue. apply hoare_acquire; auto.
  { intros e He. apply checked_absorbs. destruct He; exact I. }
  intros c. apply hoare_open_page; auto.
  { intros e He. apply checked_absorbs. destruct He; exact I. }
  intros page. apply hoare_interact; auto.
  - intros s _. apply preserves_do_step. intros e He.
    apply checked_absorbs. destruct He; exact I.
  - apply hoare_verify_checked, Hne.
Qed.
End Verdict.

Lemma body_no_release_raised w p :
  release_raised (log (snd (body p w initial))) = false.
Proof.
  destruct (body_tracks w p) as [_ Hr].
  destruct (release_raised (log (snd (body p w initial)))) eqn:E; [|reflexivity].
  apply release_raised_In in E as (r & e & Hin). rewrite Hr in Hin. destruct Hin.
Qed.

(** A run ends normally exactly when every check of the plan was made
    and passed and neither the final sleep nor a release raised. *)
Lemma run_plan_checked w p :
  checks_of (plan_verdict p) <> [] ->
  fst (run_plan p w initial) = Ok tt
  <-> checked (checks_of (plan_verdict p)) (log (snd (run_plan p w initial)))
      /\ release_raised (log (snd (run_plan p w initial))) = false.
Proof.
  intros Hne.
  destruct (run_plan_outcome w p) as (evs & Hlog & Hev & Hsame & Hbad).
  rewrite Hlog, release_raised_app, body_no_release_raised, orb_false_r.
  rewrite (checked_cleanup _ _ _ Hev), <- (body_checked w p Hne).
  destruct (release_raised evs) eqn:E.
  - specialize (Hbad eq_refl). split.
    + intros H. rewrite H in Hbad. discriminate.
    + intros [_ H]. discriminate.
  - rewrite (Hsame eq_refl). tauto.
Qed.

(** C6 as stated fails: in TC005, when closing the context raises, the
    expected text was visible and yet the script does not succeed. *)
Lemma visible_yet_failed :
  checks_made (final_log context_close_fails TC005)
  = [("text=Document processing completed successfully", 1000, None)]
  /\ outcome context_close_fails TC005
     = Raised (Error "Target page, context or browser has been closed").
Proof. split; vm_compute; reflexivity. Qed.

(** C6, amended: every script navigates only to the fixed local address
    and checks the visibility of its own fixed texts only, the text the
    specification names among them; it succeeds only if every one of
    them became visible within the timeout, and then it does succeed
    unless the final sleep or a release of the cleanup block raises. *)
Theorem succeeds_iff_texts_visible (w : world) (s : script) :
  Forall (fun url => url = "http://localhost:5322")
    (choose url_visited (final_log w s))
  /\ Forall (fun c => In (fst c) (checks_of (final_verdict s)))
       (checks_made (final_log w s))
  /\ In (expected_text s) (map fst (checks_of (final_verdict s)))
  /\ (outcome w s = Ok tt
      <-> checks_made (final_log w s) = map passed (checks_of (final_verdict s))
          /\ sleep_raised (final_log w s) = false
          /\ release_raised (final_log w s) = false).
Proof.
  rewrite final_log_plan, outcome_plan.
  split; [|split; [|split]].
  - apply Forall_forall. intros url Hin.
    apply choose_In in Hin as (e & Hin & He).
    apply log_emitted in Hin.
    destruct Hin as [e Hx|e Hx|st e _ Hx|e Hx|e Hx]; destruct Hx;
      try discriminate. cbn in He. congruence.
  - apply Forall_forall. intros c Hin.
    apply choose_In in Hin as (e & Hin & He). rewrite <- in_rev in Hin.
    apply log_emitted in Hin.
    destruct Hin as [e Hx|e Hx|st e _ Hx|e Hx|e Hx]; destruct Hx;
      try discriminate. cbn in He. injection He as <-. assumption.
  - destruct s; cbn; auto.
  - rewrite run_plan_checked by (destruct s; discriminate).
    unfold checked. cbn [plan_of plan_verdict]. tauto.
Qed.

Lemma succeeds_iff_texts_visible_witness :
  checks_made (final_log calm TC005)
  = map passed (checks_of (final_verdict TC005))
  /\ outcome calm TC005 = Ok tt.
Proof.
  split; [vm_compute; reflexivity|].
  apply (succeeds_iff_texts_visible calm TC005). repeat split; vm_compute; reflexivity.
Defined.

(** * Further properties of the scripts *)

(** ** How a run ends: fail-fast behaviour and the origin of exceptions *)

Section Stops.
Variable w : world.
Variable v : verdict.

Lemma stops_bind {A B} (m : M A) (f : A -> M B) :
  hoare w (on_log all_harmless) m (stops v) ->
  (forall a, hoare w (on_log all_harmless) (f a) (stops v)) ->
  hoare w (on_log all_harmless) (bind m f) (stops v).
Proof.
  intros Hm Hf st Hst. specialize (Hm st Hst). unfold bind.
  destruct (m w st) as [[a|e] st1]; cbn [fst snd] in *.
  - apply Hf, Hm.
  - exact Hm.
Qed.

Lemma stops_silent {A} (m : M A) :
  (forall st, is_ok (fst (m w st)) = true /\ log (snd (m w st)) = log st) ->
  hoare w (on_log all_harmless) m (stops v).
Proof.
  intros H st Hst. destruct (H st) as [Hok Hlog].
  destruct (m w st) as [[a|e] st1]; cbn [fst snd] in *; [|discriminate].
  cbn. rewrite Hlog. exact Hst.
Qed.

(** A call that is neither a swallowed wait nor the wrapped check. *)
Lemma stops_call o :
  (forall x, raised_by v (Called o (Some x)) = Some x) ->
  hoare w (on_log all_harmless) (call o) (stops v).
Proof.
  intros Ho st Hst. unfold on_log, all_harmless in Hst. cbn.
  destruct (raises w (log st) o) as [x|]; cbn.
  - exists (Called o (Some x)), (log st). auto.
  - exact Hst.
Qed.

Lemma stops_call_ret {A} o (a : A) :
  (forall x, raised_by v (Called o (Some x)) = Some x) ->
  hoare w (on_log all_harmless) (call o ;; ret a) (stops v).
Proof.
  intros Ho. apply stops_bind; [apply stops_call, Ho|].
  intros _. apply stops_silent. intros st; split; reflexivity.
Qed.

Lemma stops_guarded_wait o :
  is_load_wait o = true ->
  hoare w (on_log all_harmless)
    (try_except (call o) isinstance_Error (fun _ => ret tt)) (stops v).
Proof.
  intros Ho st Hst. unfold on_log, all_harmless in Hst.
  unfold try_except, call. cbn.
  destruct (raises w (log st) o) as [x|]; cbn; [|exact Hst].
  destruct (isinstance_Error x) eqn:Ex; cbn.
  - rewrite Ho, Ex. exact Hst.
  - exists (Called o (Some x)), (log st). cbn. rewrite Ho, Ex.
    destruct o; try discriminate; auto.
Qed.

Lemma stops_wrapped_check l timeout message :
  failure_message v = Some message ->
  hoare w (on_log all_harmless)
    (try_except (expect_to_be_visible l timeout) isinstance_AssertionError
       (fun _ => raise (AssertionError message))) (stops v).
Proof.
  intros Hv st Hst. unfold on_log, all_harmless in Hst.
  unfold try_except, expect_to_be_visible, call, raise. cbn.
  destruct (raises w (log st) (ExpectVisible l timeout)) as [x|]; cbn; [|exact Hst].
  destruct (isinstance_AssertionError x) eqn:Ex; cbn;
    exists (Called (ExpectVisible l timeout) (Some x)), (log st);
    cbn; rewrite Hv, Ex; auto.
Qed.

Lemma stops_for_each {A} (xs : list A) (f : A -> M unit) :
  (forall x, hoare w (on_log all_harmless) (f x) (stops v)) ->
  hoare w (on_log all_harmless) (for_each xs f) (stops v).
Proof.
  intros Hf. induction xs as [|x xs IH]; cbn [for_each].
  - apply stops_silent. intros st; split; reflexivity.
  - apply stops_bind; auto.
Qed.

Lemma stops_new_page c : hoare w (on_log all_harmless) (new_page c) (stops v).
Proof.
  intros st Hst. unfold on_log, all_harmless in Hst. unfold new_page, call. cbn.
  destruct (raises w (log st) NewPage) as [x|]; cbn; [|exact Hst].
  exists (Called NewPage (Some x)), (log st). auto.
Qed.

Lemma stops_page_frames p : hoare w (on_log all_harmless) (page_frames p) (stops v).
Proof. intros st Hst. cbn. exact Hst. Qed.

(** [frame = context.pages[-1]] on an empty list ends the body with
    IndexError, right after the list was read. *)
Lemma stops_last_page {B} c (k : page_id -> M B) :
  (forall frame, hoare w (on_log all_harmless) (k frame) (stops v)) ->
  hoare w (on_log all_harmless)
    (pages <- context_pages c ;; frame <- subscript_last pages ;; k frame)
    (stops v).
Proof.
  intros Hk st Hst. unfold on_log, all_harmless in Hst.
  unfold bind, context_pages, subscript_last. cbn.
  destruct (pages_of w (log st)) as [|p ps] eqn:E; cbn.
  - exists (PagesRead []), (log st). auto.
  - destruct (rev ps ++ [p]) as [|x xs] eqn:Er.
    + destruct (rev ps); discriminate.
    + cbn. apply Hk. unfold on_log, all_harmless. cbn. exact Hst.
Qed.

Lemma raised_by_plain_call o :
  is_load_wait o = false ->
  match o with ExpectVisible _ _ => False | _ => True end ->
  forall x, raised_by v (Called o (Some x)) = Some x.
Proof. intros Hw Ho x. cbn. rewrite Hw. destruct o; try reflexivity; destruct Ho. Qed.

Lemma stops_interact c page steps k :
  hoare w (on_log all_harmless) k (stops v) ->
  hoare w (on_log all_harmless) (interact c page steps k) (stops v).
Proof.
  intros Hk. induction steps as [|s rest IH]; [exact Hk|].
  destruct s; cbn [interact].
  - apply stops_last_page. intros frame.
    apply stops_bind; [apply stops_call, raised_by_plain_call; [reflexivity|exact I]|].
    intros _.
    apply stops_bind; [apply stops_call, raised_by_plain_call; [reflexivity|exact I]|].
    intros _. exact IH.
  - apply stops_last_page. intros frame.
    apply stops_bind; [apply stops_call, raised_by_plain_call; [reflexivity|exact I]|].
    intros _.
    apply stops_bind; [apply stops_call, raised_by_plain_call; [reflexivity|exact I]|].
    intros _. exact IH.
  - apply stops_bind; [apply stops_call, raised_by_plain_call; [reflexivity|exact I]|].
    intros _. exact IH.
Qed.

Lemma stops_expect_all frame checks k :
  failure_message v = None ->
  hoare w (on_log all_harmless) k (stops v) ->
  hoare w (on_log all_harmless) (expect_all frame checks k) (stops v).
Proof.
  intros Hv Hk. induction checks as [|[sel timeout] rest IH]; [exact Hk|].
  cbn [expect_all]. apply stops_bind; [|intros _; exact IH].
  apply stops_call. intros x. cbn. rewrite Hv. reflexivity.
Qed.

End Stops.

Lemma stops_verify w v c : hoare w (on_log all_harmless) (verify v c) (stops v).
Proof.
  unfold verify. apply stops_last_page. intros frame.
  destruct v as [sel timeout message|checks].
  - apply stops_bind.
    + apply stops_wrapped_check. reflexivity.
    + intros _. apply stops_call, raised_by_plain_call; [reflexivity|exact I].
  - apply stops_expect_all.
    + reflexivity.
    + apply stops_call, raised_by_plain_call; [reflexivity|exact I].
Qed.

Lemma stops_body w p :
  stops (plan_verdict p) (fst (body p w initial)) (snd (body p w initial)).
Proof.
  assert (H : hoare w (on_log all_harmless) (body p) (stops (plan_verdict p)));
    [|apply (H initial); reflexivity].
  unfold body, prologue, acquire, open_page, async_playwright_start,
    chromium_launch, new_context, set_default_timeout, goto,
    page_wait_for_load_state, frame_wait_for_load_state.
  repeat first
    [ apply stops_interact; apply stops_verify
    | apply stops_guarded_wait; reflexivity
    | apply stops_for_each; intros ?
    | apply stops_new_page
    | apply stops_page_frames
    | apply stops_call, raised_by_plain_call; [reflexivity|exact I]
    | apply stops_silent; intros ?; split; reflexivity
    | apply stops_bind; [|intros ?] ].
Qed.

(** The cleanup block: the releases that returned, and at the head of
    the log the release that raised, if one did. *)
Lemma cleanup_stops w st :
  exists rel,
    Forall from_cleanup rel
    /\ forallb harmless rel = true
    /\ match fst (cleanup w st) with
       | Ok _ => log (snd (cleanup w st)) = rel ++ log st
       | Raised e =>
           exists o, release_of o <> None
                     /\ log (snd (cleanup w st)) = Called o (Some e) :: rel ++ log st
       end.
Proof.
  destruct st as [[p|] [b|] [c|] lg];
    unfold cleanup, bind, read, if_set, context_close, browser_close, pw_stop,
      call, ret, record; cbn;
    repeat match goal with
      | |- context [raises w ?l ?o] =>
          let E := fresh "E" in destruct (raises w l o) eqn:E; cbn
      end;
    match goal with
    | |- exists rel, _ /\ _ /\ (exists o, _ /\ ?l = _) =>
        match l with
        | ?e0 :: ?e1 :: ?e2 :: lg => exists [e1; e2]
        | ?e0 :: ?e1 :: lg => exists [e1]
        | ?e0 :: lg => exists []
        end
    | |- exists rel, _ /\ _ /\ ?l = _ =>
        match l with
        | ?e1 :: ?e2 :: ?e3 :: lg => exists [e1; e2; e3]
        | ?e1 :: ?e2 :: lg => exists [e1; e2]
        | ?e1 :: lg => exists [e1]
        | lg => exists []
        end
    end;
    (split; [repeat constructor|split; [reflexivity|]]);
    try reflexivity;
    eexists; (split; [|reflexivity]); discriminate.
Qed.

(** A whole run: the log of the [try] body, then the releases. *)
Lemma run_plan_stops w p :
  exists rel,
    Forall from_cleanup rel
    /\ forallb harmless rel = true
    /\ match fst (run_plan p w initial) with
       | Ok _ =>
           fst (body p w initial) = Ok tt
           /\ log (snd (run_plan p w initial)) = rel ++ log (snd (body p w initial))
       | Raised e =>
           (fst (body p w initial) = Raised e
            /\ log (snd (run_plan p w initial)) = rel ++ log (snd (body p w initial)))
           \/ (exists o, release_of o <> None
                         /\ log (snd (run_plan p w initial))
                            = Called o (Some e) :: rel ++ log (snd (body p w initial)))
       end.
Proof.
  unfold run_plan, try_finally.
  destruct (body p w initial) as [r st1]; cbn [fst snd].
  destruct (cleanup_stops w st1) as (rel & Hrel & Hh & Hc).
  exists rel. split; [exact Hrel|split; [exact Hh|]].
  destruct (cleanup w st1) as [[[]|e] st2]; cbn [fst snd] in *.
  - destruct r as [[]|e]; cbn; auto.
  - right. exact Hc.
Qed.

Lemma harmless_raised_by v ev : harmless ev = true -> raised_by v ev = None.
Proof.
  destruct ev as [o [x|]|[|p ps]|p fs]; cbn; try reflexivity; try discriminate.
  intros ->. reflexivity.
Qed.

(** X1: a script ends normally exactly when every event of its run is
    harmless: no call raised, except load-state waits that raised a
    Playwright error, and the page list was never empty.  No other
    exception is ever swallowed. *)
Theorem succeeds_iff_all_harmless (w : world) (s : script) :
  outcome w s = Ok tt <-> forallb harmless (final_log w s) = true.
Proof.
  rewrite final_log_plan, outcome_plan. split.
  - intros Hok.
    destruct (run_plan_stops w (plan_of s)) as (rel & Hrel & Hh & H).
    rewrite Hok in H. destruct H as [Hb Hlog].
    pose proof (stops_body w (plan_of s)) as Hs. rewrite Hb in Hs. cbn in Hs.
    rewrite Hlog, forallb_app, Hh, Hs. reflexivity.
  - intros H. pose proof (blames_run_plan w (plan_of s) initial) as Hb.
    destruct (fst (run_plan (plan_of s) w initial)) as [[]|e]; [reflexivity|].
    rewrite (Hb eq_refl) in H. discriminate.
Qed.

(** X2: a script stops at the first failure.  The log of a run is the
    log of the [try] body followed by release calls; every event of the
    body except the last one is harmless, and so is every release call
    except the last one: after an exception that is not swallowed, or an
    empty page list, only the cleanup block runs, and after a release
    that raises nothing runs at all. *)
Theorem nothing_follows_a_failure (w : world) (s : script) :
  exists releases body_log,
    final_log w s = releases ++ body_log
    /\ Forall from_cleanup releases
    /\ release_calls body_log = []
    /\ forallb harmless (tl releases) = true
    /\ forallb harmless (tl body_log) = true.
Proof.
  rewrite final_log_plan.
  destruct (run_plan_stops w (plan_of s)) as (rel & Hrel & Hh & H).
  pose proof (stops_body w (plan_of s)) as Hs.
  assert (Htl : forallb harmless (tl (log (snd (body (plan_of s) w initial)))) = true).
  { destruct (fst (body (plan_of s) w initial)) as [u|e]; cbn in Hs.
    - destruct (log (snd (body (plan_of s) w initial))) as [|ev lg]; [reflexivity|].
      cbn in Hs. apply andb_prop in Hs as [_ Hs]. exact Hs.
    - destruct Hs as (ev & lg & -> & Hlg & _). exact Hlg. }
  destruct (body_tracks w (plan_of s)) as [_ Hnone].
  destruct (fst (run_plan (plan_of s) w initial)) as [u|e].
  - destruct H as [_ Hlog]. exists rel, (log (snd (body (plan_of s) w initial))).
    repeat split; auto. destruct rel as [|ev rel']; [reflexivity|].
    cbn in Hh. apply andb_prop in Hh as [_ Hh]. exact Hh.
  - destruct H as [[_ Hlog]|(o & Ho & Hlog)].
    + exists rel, (log (snd (body (plan_of s) w initial))).
      repeat split; auto. destruct rel as [|ev rel']; [reflexivity|].
      cbn in Hh. apply andb_prop in Hh as [_ Hh]. exact Hh.
    + exists (Called o (Some e) :: rel), (log (snd (body (plan_of s) w initial))).
      repeat split; auto. constructor; [|exact Hrel].
      destruct o; try (exfalso; apply Ho; reflexivity); constructor.
Qed.

(** X3: every exception that leaves a script has its origin in the log:
    it is the exception of a call of the run that raised (a release of
    the cleanup block included), the IndexError of an empty page list,
    or the script's own message put in place of the AssertionError of
    its wrapped visibility check. *)
Theorem exceptions_have_an_origin (w : world) (s : script) (e : exn) :
  outcome w s = Raised e ->
  exists ev, In ev (final_log w s) /\ raised_by (final_verdict s) ev = Some e.
Proof.
  rewrite final_log_plan, outcome_plan. intros Hr.
  destruct (run_plan_stops w (plan_of s)) as (rel & Hrel & Hh & H).
  rewrite Hr in H. destruct H as [[Hb Hlog]|(o & Ho & Hlog)].
  - pose proof (stops_body w (plan_of s)) as Hs. rewrite Hb in Hs.
    destruct Hs as (ev & lg & Hlg & _ & Hev).
    exists ev. split; [|exact Hev].
    rewrite Hlog, Hlg. apply in_or_app. right. left. reflexivity.
  - exists (Called o (Some e)). split; [rewrite Hlog; left; reflexivity|].
    destruct o; try (exfalso; apply Ho; reflexivity); reflexivity.
Qed.

Lemma exceptions_have_an_origin_witness :
  exists ev,
    In ev (final_log text_never_visible TC016)
    /\ raised_by (final_verdict TC016) ev
       = Some (AssertionError "Test failed: Batch sizes for Hugging Face embedding requests and Pinecone vector upserts are not properly configurable or are causing rate limits/throttling as per the test plan.").
Proof.
  apply (exceptions_have_an_origin text_never_visible TC016). vm_compute; reflexivity.
Defined.

Lemma from_cleanup_not_pages rel ps : Forall from_cleanup rel -> ~ In (PagesRead ps) rel.
Proof.
  induction 1 as [|ev rel Hev _ IH]; intros Hin; [destruct Hin|].
  destruct Hin as [->|Hin]; [inversion Hev|auto].
Qed.

(** X4: when [context.pages] is empty at a step that takes its last
    element, the script ends with IndexError (unless a release of the
    cleanup block raises afterwards); no further step is run. *)
Theorem empty_page_list_raises_IndexError (w : world) (s : script) :
  In (PagesRead []) (final_log w s) ->
  release_raised (final_log w s) = false ->
  outcome w s = Raised IndexError.
Proof.
  rewrite final_log_plan, outcome_plan. intros Hin Hrel.
  destruct (run_plan_outcome w (plan_of s)) as (evs & Hlog & Hev & Hsame & _).
  rewrite Hlog in Hin, Hrel.
  rewrite release_raised_app in Hrel. apply orb_false_elim in Hrel as [Hrel _].
  rewrite (Hsame Hrel).
  apply in_app_or in Hin as [Hin|Hin]; [destruct (from_cleanup_not_pages _ _ Hev Hin)|].
  pose proof (stops_body w (plan_of s)) as Hs.
  destruct (fst (body (plan_of s) w initial)) as [u|e]; cbn in Hs.
  - rewrite forallb_forall in Hs. specialize (Hs _ Hin). discriminate.
  - destruct Hs as (ev & lg & Hlg & Hh & Hby). rewrite Hlg in Hin.
    destruct Hin as [->|Hin].
    + cbn in Hby. congruence.
    + rewrite forallb_forall in Hh. specialize (Hh _ Hin). discriminate.
Qed.

Lemma empty_page_list_raises_IndexError_witness :
  outcome no_pages TC014 = Raised IndexError.
Proof.
  apply (empty_page_list_raises_IndexError no_pages TC014).
  - vm_compute. do 3 right. left. reflexivity.
  - vm_compute. reflexivity.
Defined.

(** ** The chain of acquisitions and the releases *)

Lemma nested_absorbs e : acquires_nothing e -> absorbs (on_log nested) e.
Proof.
  intros He st Hst. unfold on_log, nested in *. cbn [record log].
  rewrite !acquired_cons, !He. exact Hst.
Qed.

Lemma page_level_acquires_nothing e : page_level e -> acquires_nothing e.
Proof. intros [_ H]. exact H. Qed.

Lemma from_cleanup_acquires_nothing e : from_cleanup e -> acquires_nothing e.
Proof. destruct 1; intros r'; destruct r, r'; reflexivity. Qed.

Lemma hoare_acquire_nested w (k : handle -> M unit) :
  (forall c, preserves w (on_log nested) (k c)) ->
  hoare w (fun st => st = initial) (acquire k) (fun _ => on_log nested).
Proof.
  intros Hk st ->.
  unfold acquire, async_playwright_start, chromium_launch, new_context,
    bind, call, ret, assign_pw, assign_browser, assign_context, initial, record.
  cbn.
  destruct (raises w [] StartPlaywright) eqn:E1; cbn.
  { unfold on_log, nested. cbn. rewrite !acquired_cons. reflexivity. }
  destruct (raises w _ (Launch true launch_args)) eqn:E2; cbn.
  { unfold on_log, nested. cbn. rewrite !acquired_cons. reflexivity. }
  destruct (raises w _ NewContext) eqn:E3; cbn.
  { unfold on_log, nested. cbn. rewrite !acquired_cons. reflexivity. }
  apply Hk. unfold on_log, nested. cbn. rewrite !acquired_cons. reflexivity.
Qed.

Lemma nested_body w p : nested (log (snd (body p w initial))).
Proof.
  apply (hoare_acquire_nested w
           (fun c => open_page c (fun page =>
              interact c page (plan_steps p) (verify (plan_verdict p) c))));
    [|reflexivity].
  intros c. apply hoare_open_page; auto.
  { intros e He. apply nested_absorbs, page_level_acquires_nothing,
      from_open_page_level, He. }
  intros page. apply hoare_interact; auto.
  - intros s _. apply preserves_do_step. intros e He.
    eapply nested_absorbs, page_level_acquires_nothing, from_step_level, He.
  - apply preserves_verify. intros e He.
    eapply nested_absorbs, page_level_acquires_nothing, from_verify_level, He.
Qed.

Lemma nested_run_plan w p : nested (log (snd (run_plan p w initial))).
Proof.
  destruct (run_plan_outcome w p) as (evs & Hlog & Hev & _).
  rewrite Hlog. pose proof (nested_body w p) as Hb. clear Hlog. revert Hb.
  generalize (log (snd (body p w initial))) as lg. intros lg Hb.
  induction Hev as [|e evs He _ IH]; [exact Hb|].
  cbn [app]. unfold nested in *.
  rewrite !acquired_cons, !(from_cleanup_acquires_nothing e He). cbn [orb].
  exact IH.
Qed.

(** X5: the resources are acquired in a chain, the browser only after
    the Playwright session and the context only after the browser; so in
    every run the resources the cleanup block finds to release are a
    tail of the list context, browser, session. *)
Theorem held_is_a_tail (w : world) (s : script) :
  exists n, held (final_log w s) = skipn n [BrowserContext; Browser; Playwright].
Proof.
  rewrite final_log_plan.
  pose proof (nested_run_plan w (plan_of s)) as H. unfold nested in H.
  unfold held. cbn [filter].
  destruct (acquired BrowserContext _), (acquired Browser _),
    (acquired Playwright _); try discriminate.
  - exists 0%nat; reflexivity.
  - exists 1%nat; reflexivity.
  - exists 2%nat; reflexivity.
  - exists 3%nat; reflexivity.
Qed.

Lemma releases_in_order_prefix hs calls :
  releases_in_order hs calls = true -> is_prefix (map fst calls) hs.
Proof.
  revert calls. induction hs as [|h hs IH]; intros calls H.
  - destruct calls; [apply is_prefix_nil|discriminate].
  - destruct calls as [|[r [e|]] calls]; cbn in H; [discriminate| |].
    + destruct calls; [|discriminate]. apply resource_eqb_eq in H. subst.
      exists hs. reflexivity.
    + apply andb_prop in H as [Hr H]. apply resource_eqb_eq in Hr. subst.
      destruct (IH _ H) as [t ->]. exists t. reflexivity.
Qed.

Lemma held_NoDup lg : NoDup (held lg).
Proof.
  unfold held. apply NoDup_filter.
  repeat constructor; cbn; intuition discriminate.
Qed.

Lemma is_prefix_NoDup {A} (xs ys : list A) : is_prefix xs ys -> NoDup ys -> NoDup xs.
Proof. intros [t ->] H. apply NoDup_app_remove_r in H. exact H. Qed.

(** X6: no resource is released twice: in every run each of
    [context.close()], [browser.close()] and [pw.stop()] is called at
    most once. *)
Theorem no_double_release (w : world) (s : script) :
  NoDup (map fst (release_calls (final_log w s))).
Proof.
  rewrite final_log_plan.
  destruct (run_plan_releases w (plan_of s)) as [Hord _].
  eapply is_prefix_NoDup; [apply releases_in_order_prefix, Hord|apply held_NoDup].
Qed.

(** X7: the cleanup block always runs: whatever happened in the [try]
    body, the release of the first resource held (the one acquired last)
    is called, and it is the first release called. *)
Theorem first_held_release_is_called (w : world) (s : script) (r : resource) :
  hd_error (held (final_log w s)) = Some r ->
  exists x, hd_error (release_calls (final_log w s)) = Some (r, x).
Proof.
  rewrite final_log_plan.
  destruct (run_plan_releases w (plan_of s)) as [Hord _]. revert Hord.
  destruct (held _) as [|h hs]; [discriminate|].
  intros Hord [= ->].
  destruct (release_calls _) as [|[r' [e|]] calls]; cbn in Hord; [discriminate| |].
  - destruct calls; [|discriminate]. apply resource_eqb_eq in Hord. subst.
    eexists; reflexivity.
  - apply andb_prop in Hord as [Hr _]. apply resource_eqb_eq in Hr. subst.
    eexists; reflexivity.
Qed.

Lemma first_held_release_is_called_witness :
  exists x,
    hd_error (release_calls (final_log wait_interrupted TC005))
    = Some (BrowserContext, x).
Proof.
  apply (first_held_release_is_called wait_interrupted TC005). vm_compute; reflexivity.
Defined.

(** ** The order of the visibility checks *)

Lemma checks_in_order_passed done cs :
  checks_in_order (done ++ cs) (map passed done) = true.
Proof.
  induction done as [|[sel timeout] done IH]; [reflexivity|].
  cbn. rewrite String.eqb_refl, Z.eqb_refl. exact IH.
Qed.

Lemma checks_in_order_failed done sel timeout x cs :
  checks_in_order (done ++ (sel, timeout) :: cs)
    (map passed done ++ [(sel, timeout, Some x)]) = true.
Proof.
  induction done as [|[sel' timeout'] done IH].
  - cbn. rewrite String.eqb_refl, Z.eqb_refl. reflexivity.
  - cbn [app map passed fst snd checks_in_order].
    rewrite String.eqb_refl, Z.eqb_refl. cbn [andb].
    destruct (map passed done ++ [(sel, timeout, Some x)]) eqn:E; exact IH.
Qed.

Lemma checks_made_cleanup evs lg :
  Forall from_cleanup evs -> checks_made (evs ++ lg) = checks_made lg.
Proof.
  induction 1 as [|e evs He _ IH]; [reflexivity|].
  cbn [app]. rewrite checks_made_cons, IH.
  destruct He; cbn; apply app_nil_r.
Qed.

Section Order.
Variable w : world.

Lemma hoare_sleep_order done cs :
  hoare w (on_log (checked done)) (asyncio_sleep 5)
    (fun _ st => checks_in_order (done ++ cs) (checks_made (log st)) = true).
Proof.
  intros st [Hc _]. unfold asyncio_sleep, call. cbn [fst snd record log].
  rewrite checks_made_cons, Hc. cbn. rewrite app_nil_r.
  apply checks_in_order_passed.
Qed.

Lemma hoare_expect_all_order frame cs done :
  hoare w (on_log (checked done)) (expect_all frame cs (asyncio_sleep 5))
    (fun _ st => checks_in_order (done ++ cs) (checks_made (log st)) = true).
Proof.
  revert done. induction cs as [|[sel timeout] rest IH]; intros done.
  - apply hoare_sleep_order.
  - cbn [expect_all]. intros st [Hc Hs].
    unfold bind, expect_to_be_visible, call. cbn.
    destruct (raises w (log st) (ExpectVisible _ timeout)) as [x|] eqn:E; cbn.
    + rewrite checks_made_cons, Hc. cbn. apply checks_in_order_failed.
    + assert (Hpre : on_log (checked (done ++ [(sel, timeout)]))
                       (record (Called (ExpectVisible (first (locate frame sel)) timeout) None) st)).
      { unfold on_log, checked. cbn [record log].
        rewrite checks_made_cons, sleep_raised_cons, Hc, Hs, map_app.
        split; reflexivity. }
      specialize (IH _ _ Hpre). rewrite <- app_assoc in IH. exact IH.
Qed.

Lemma hoare_verify_order v c :
  hoare w (on_log (checked [])) (verify v c)
    (fun _ st => checks_in_order (checks_of v) (checks_made (log st)) = true).
Proof.
  intros st [Hc Hs].
  unfold verify, bind, context_pages, subscript_last. cbn.
  assert (Hpre : on_log (checked [])
                   (record (PagesRead (pages_of w (log st))) st)).
  { apply checked_absorbs; [exact I|split; assumption]. }
  destruct (rev (pages_of w (log st))) as [|frame others]; cbn.
  - destruct Hpre as [Hp _]. cbn [record log] in Hp. rewrite Hp. reflexivity.
  - destruct v as [sel timeout message|checks]; cbn [checks_of].
    + destruct Hpre as [Hp Hq]. cbn [record log] in Hp, Hq.
      unfold try_except, expect_to_be_visible, call, raise. cbn.
      destruct (raises w _ (ExpectVisible _ timeout)) as [x|] eqn:E; cbn.
      * assert (Hm : checks_in_order [(sel, timeout)]
                       (checks_made
                          (Called (ExpectVisible (first (locate frame sel)) timeout)
                             (Some x) :: PagesRead (pages_of w (log st)) :: log st))
                     = true).
        { rewrite checks_made_cons, Hp. cbn.
          rewrite String.eqb_refl, Z.eqb_refl. reflexivity. }
        destruct (isinstance_AssertionError x); cbn; exact Hm.
      * refine (hoare_sleep_order [(sel, timeout)] []
                  (record (Called (ExpectVisible (first (locate frame sel)) timeout) None)
                     (record (PagesRead (pages_of w (log st))) st)) _).
        unfold on_log, checked. cbn [record log].
        rewrite checks_made_cons, sleep_raised_cons, Hp, Hq. split; reflexivity.
    + apply (hoare_expect_all_order frame checks [] _ Hpre).
Qed.

Lemma body_checks_in_order p :
  checks_in_order (checks_of (plan_verdict p))
    (checks_made (log (snd (body p w initial)))) = true.
Proof.
  assert (H : hoare w (on_log (checked [])) (body p)
                (fun _ st => checks_in_order (checks_of (plan_verdict p))
                               (checks_made (log st)) = true));
    [|apply (H initial); split; reflexivity].
  assert (Hexit : forall (e : exn) st, on_log (checked []) st ->
            checks_in_order (checks_of (plan_verdict p)) (checks_made (log st)) = true).
  { intros e st [Hc _]. rewrite Hc. reflexivity. }
  unfold body, prologue. apply hoare_acquire; auto.
  { intros e He. apply checked_absorbs. destruct He; exact I. }
  intros c. apply hoare_open_page; auto.
  { intros e He. apply checked_absorbs. destruct He; exact I. }
  intros page. apply hoare_interact; auto.
  - intros s _. apply preserves_do_step. intros e He.
    apply checked_absorbs. destruct He; exact I.
  - apply hoare_verify_order.
Qed.
End Order.

(** X9: the visibility checks are made in the order of the script, each
    at most once, and the first one that raises ends them: the checks
    made in a run are an initial part of the script's list, and only
    the last one made can have failed. *)
Theorem checks_made_in_order (w : world) (s : script) :
  checks_in_order (checks_of (final_verdict s)) (checks_made (final_log w s)) = true.
Proof.
  rewrite final_log_plan.
  destruct (run_plan_outcome w (plan_of s)) as (evs & Hlog & Hev & _).
  rewrite Hlog, (checks_made_cleanup _ _ Hev).
  apply (body_checks_in_order w (plan_of s)).
Qed.

(** ** [open_page] in stages *)

Section Staged.
Variable w : world.

(** The rule for [open_page] with an invariant for each stage: before
    the page is opened ([I0]), on the page ([I1]), in the loop over its
    frames ([I2], with the frames waited on so far), and after it
    ([I3]). *)
Lemma hoare_open_page_staged
    (I0 : state -> Prop) (I1 : page_id -> state -> Prop)
    (I2 : page_id -> list frame_id -> list frame_id -> state -> Prop)
    (I3 : page_id -> state -> Prop)
    (Q : result unit -> state -> Prop) c (k : page_id -> M unit) :
  (forall r, absorbs I0 (Called (SetDefaultTimeout 5000) r)) ->
  (forall x, absorbs I0 (Called NewPage (Some x))) ->
  (forall st, I0 st -> I1 (fresh_page w (log st)) (record (Called NewPage None) st)) ->
  (forall p r,
     absorbs (I1 p) (Called (Goto p "http://localhost:5322" "commit" 10000) r)) ->
  (forall p r,
     absorbs (I1 p) (Called (PageWaitForLoadState p "domcontentloaded" 3000) r)) ->
  (forall p fs st, I1 p st -> I2 p fs [] (record (FramesRead p fs) st)) ->
  (forall p fs done f r st,
     is_prefix (done ++ [f]) fs -> I2 p fs done st ->
     I2 p fs (done ++ [f])
       (record (Called (FrameWaitForLoadState f "domcontentloaded" 3000) r) st)) ->
  (forall p fs st, I2 p fs fs st -> I3 p st) ->
  (forall e st, I0 st -> Q (Raised e) st) ->
  (forall p e st, I1 p st -> Q (Raised e) st) ->
  (forall p fs done e st, I2 p fs done st -> Q (Raised e) st) ->
  (forall p, hoare w (I3 p) (k p) Q) ->
  hoare w I0 (open_page c k) Q.
Proof.
  intros H0 H1f H1 H2 H3 H4 H5 H6 E0 E1 E2 Hk. unfold open_page.
  apply hoare_seq; auto.
  { apply preserves_call, H0. }
  intros _. apply hoare_bind with (R := I1).
  { intros st Hst. unfold new_page, call. cbn.
    destruct (raises w (log st) NewPage) as [x|]; cbn.
    - apply E0. apply (H1f x st Hst).
    - apply H1, Hst. }
  intros page. apply hoare_seq; eauto.
  { apply preserves_call, H2. }
  intros _. apply hoare_seq; eauto.
  { apply preserves_guarded_wait, H3. }
  intros _. apply hoare_bind with (R := fun fs => I2 page fs []).
  { intros st Hst. cbn. apply H4, Hst. }
  intros fs. apply hoare_bind with (R := fun _ => I3 page); [|intros _; apply Hk].
  assert (Hloop : forall rest done, done ++ rest = fs ->
            hoare w (I2 page fs done)
              (for_each rest (fun frame =>
                 try_except (frame_wait_for_load_state frame "domcontentloaded" 3000)
                   isinstance_Error (fun _ => ret tt)))
              (fun r st => match r with
                           | Ok _ => I3 page st
                           | Raised e => Q (Raised e) st
                           end)).
  { induction rest as [|f rest IH]; intros done Hd.
    - intros st Hst. rewrite app_nil_r in Hd. subst done. cbn. apply H6 with fs, Hst.
    - cbn [for_each].
      assert (Hpre : is_prefix (done ++ [f]) fs).
      { exists rest. rewrite <- app_assoc. symmetry. exact Hd. }
      apply hoare_bind with (R := fun _ => I2 page fs (done ++ [f])).
      + intros st Hst.
        pose proof (fun r => H5 page fs done f r st Hpre Hst) as Hnext.
        unfold try_except, frame_wait_for_load_state, call. cbn.
        destruct (raises w (log st) (FrameWaitForLoadState f "domcontentloaded" 3000))
          as [x|] eqn:Ex; cbn.
        * destruct (isinstance_Error x); cbn.
          -- apply Hnext.
          -- eapply E2. apply Hnext.
        * apply Hnext.
      + intros _. apply IH. rewrite <- app_assoc. exact Hd. }
  apply (Hloop fs []). reflexivity.
Qed.
End Staged.

(** ** The waits on the frames of the page *)

Lemma frame_lists_cons e lg :
  frame_lists (e :: lg)
  = frame_lists lg ++ match frames_listed e with Some fs => [fs] | None => [] end.
Proof.
  unfold frame_lists. cbn [rev]. rewrite choose_app. cbn.
  destruct (frames_listed e); reflexivity.
Qed.

Lemma frame_waits_cons e lg :
  frame_waits (e :: lg)
  = frame_waits lg ++ match frame_waited e with Some f => [f] | None => [] end.
Proof.
  unfold frame_waits. cbn [rev]. rewrite choose_app. cbn.
  destruct (frame_waited e); reflexivity.
Qed.

#[local] Arguments frame_lists : simpl never.
#[local] Arguments frame_waits : simpl never.

Lemma frames_unread_absorbs e :
  frames_listed e = None -> frame_waited e = None ->
  absorbs (on_log frames_unread) e.
Proof.
  intros H1 H2 st [Hl Hw]. unfold on_log, frames_unread. cbn [record log].
  rewrite frame_lists_cons, frame_waits_cons, H1, H2, Hl, Hw. split; reflexivity.
Qed.

Lemma frames_all_waited_absorbs e :
  frames_listed e = None -> frame_waited e = None ->
  absorbs (on_log (fun lg => exists fs, frames_waited fs fs lg)) e.
Proof.
  intros H1 H2 st (fs & Hl & Hw). exists fs. unfold frames_waited. cbn [record log].
  rewrite frame_lists_cons, frame_waits_cons, H1, H2, Hl, Hw. cbn.
  rewrite app_nil_r. split; reflexivity.
Qed.

Lemma frames_cleanup evs lg :
  Forall from_cleanup evs ->
  frame_lists (evs ++ lg) = frame_lists lg /\ frame_waits (evs ++ lg) = frame_waits lg.
Proof.
  induction 1 as [|e evs He _ [IH1 IH2]]; [split; reflexivity|].
  cbn [app]. rewrite frame_lists_cons, frame_waits_cons, IH1, IH2.
  destruct He; cbn; rewrite ?app_nil_r; split; reflexivity.
Qed.

Lemma body_waits_follow_frames w p :
  waits_follow_frames (log (snd (body p w initial)))
  /\ (fst (body p w initial) = Ok tt ->
      exists fs, frames_waited fs fs (log (snd (body p w initial)))).
Proof.
  set (Q := fun (r : result unit) (st : state) =>
              waits_follow_frames (log st)
              /\ (r = Ok tt -> exists fs, frames_waited fs fs (log st))).
  assert (H : hoare w (on_log frames_unread) (body p) Q);
    [|apply (H initial); split; reflexivity].
  assert (Hfull : forall r st,
            on_log (fun lg => exists fs, frames_waited fs fs lg) st -> Q r st).
  { intros r st (fs & Hl & Hw). split.
    - right. exists fs. split; [exact Hl|]. rewrite Hw. apply is_prefix_refl.
    - intros _. exists fs. split; assumption. }
  unfold body, prologue. apply hoare_acquire.
  { intros e He. apply frames_unread_absorbs; destruct He; reflexivity. }
  { intros e st Hst. split; [left; exact Hst|discriminate]. }
  intros c.
  apply hoare_open_page_staged
    with (I1 := fun _ => on_log frames_unread)
         (I2 := fun _ fs done =>
                  on_log (fun lg => frames_waited fs done lg /\ is_prefix done fs))
         (I3 := fun _ => on_log (fun lg => exists fs, frames_waited fs fs lg)).
  - intros r. apply frames_unread_absorbs; reflexivity.
  - intros x. apply frames_unread_absorbs; reflexivity.
  - intros st Hst. apply frames_unread_absorbs; [reflexivity|reflexivity|exact Hst].
  - intros pg r. apply frames_unread_absorbs; reflexivity.
  - intros pg r. apply frames_unread_absorbs; reflexivity.
  - intros pg fs st [Hl Hw]. unfold on_log, frames_waited. cbn [record log].
    rewrite frame_lists_cons, frame_waits_cons, Hl, Hw.
    split; [split; reflexivity|apply is_prefix_nil].
  - intros pg fs done f r st Hpre [[Hl Hw] _].
    unfold on_log, frames_waited. cbn [record log].
    rewrite frame_lists_cons, frame_waits_cons, Hl, Hw. cbn.
    split; [split; reflexivity|exact Hpre].
  - intros pg fs st [Hfs _]. exists fs. exact Hfs.
  - intros e st Hst. split; [left; exact Hst|discriminate].
  - intros pg e st Hst. split; [left; exact Hst|discriminate].
  - intros pg fs done e st [[Hl Hw] Hpre]. split; [|discriminate].
    right. exists fs. split; [exact Hl|]. rewrite Hw. exact Hpre.
  - intros page. apply hoare_interact.
    + intros s _. apply preserves_do_step. intros e He.
      apply frames_all_waited_absorbs; destruct He; reflexivity.
    + intros e st Hst. apply Hfull, Hst.
    + eapply hoare_weaken
        with (Q' := fun _ => on_log (fun lg => exists fs, frames_waited fs fs lg)).
      * apply preserves_verify. intros e He.
        apply frames_all_waited_absorbs; destruct He; reflexivity.
      * auto.
      * intros r st Hst. apply Hfull, Hst.
Qed.

(** X10: [page.frames] is read at most once, and the waits on frames go
    through the frames it listed, in order, one wait per frame; a frame
    is left out only when the run ended before its turn.  A run that
    ends normally has waited on every frame listed. *)
Theorem frame_waits_follow_frames (w : world) (s : script) :
  waits_follow_frames (final_log w s)
  /\ (outcome w s = Ok tt ->
      exists fs, frame_lists (final_log w s) = [fs]
                 /\ frame_waits (final_log w s) = fs).
Proof.
  rewrite final_log_plan, outcome_plan.
  destruct (run_plan_outcome w (plan_of s)) as (evs & Hlog & Hev & Hsame & Hbad).
  destruct (frames_cleanup evs (log (snd (body (plan_of s) w initial))) Hev)
    as [El Ew].
  destruct (body_waits_follow_frames w (plan_of s)) as [Hb Hok].
  rewrite Hlog. unfold waits_follow_frames, frames_unread. rewrite El, Ew.
  split; [exact Hb|].
  intros H. destruct (release_raised evs) eqn:E.
  - specialize (Hbad eq_refl). rewrite H in Hbad. discriminate.
  - rewrite (Hsame eq_refl) in H. exact (Hok H).
Qed.

Lemma frame_waits_follow_frames_witness :
  exists fs, frame_lists (final_log waits_time_out TC005) = [fs]
             /\ frame_waits (final_log waits_time_out TC005) = fs.
Proof.
  apply (frame_waits_follow_frames waits_time_out TC005). vm_compute; reflexivity.
Defined.

(** ** Calls are made on live objects only *)

Lemma all_live_absorbs e : page_level e -> absorbs (on_log all_live) e.
Proof.
  intros [Hrel Hacq] st (Hh & Ha & Hr). unfold on_log, all_live. cbn [record log].
  split; [|split].
  - cbn [holds]. rewrite Hh, andb_true_r. unfold on_live_objects.
    apply forallb_forall. intros r _. unfold live, release_attempted.
    rewrite Ha, Hr. reflexivity.
  - intros r. rewrite acquired_cons, Ha. apply orb_true_r.
  - rewrite release_calls_cons, Hr, Hrel. reflexivity.
Qed.

Lemma hoare_acquire_live w (k : handle -> M unit) :
  (forall c, preserves w (on_log all_live) (k c)) ->
  hoare w (fun st => st = initial) (acquire k)
    (fun _ st => holds on_live_objects (log st) = true).
Proof.
  intros Hk st ->.
  unfold acquire, async_playwright_start, chromium_launch, new_context,
    bind, call, ret, assign_pw, assign_browser, assign_context, initial, record.
  cbn.
  destruct (raises w [] StartPlaywright) eqn:E1; cbn; [reflexivity|].
  destruct (raises w _ (Launch true launch_args)) eqn:E2; cbn; [reflexivity|].
  destruct (raises w _ NewContext) eqn:E3; cbn; [reflexivity|].
  apply Hk. split; [reflexivity|split; [intros []; reflexivity|reflexivity]].
Qed.

Lemma body_on_live_objects w p :
  holds on_live_objects (log (snd (body p w initial))) = true.
Proof.
  apply (hoare_acquire_live w
           (fun c => open_page c (fun page =>
              interact c page (plan_steps p) (verify (plan_verdict p) c))));
    [|reflexivity].
  intros c. apply hoare_open_page; auto.
  { intros e He. apply all_live_absorbs, from_open_page_level, He. }
  intros page. apply hoare_interact; auto.
  - intros s _. apply preserves_do_step. intros e He.
    eapply all_live_absorbs, from_step_level, He.
  - apply preserves_verify. intros e He.
    eapply all_live_absorbs, from_verify_level, He.
Qed.

Lemma cleanup_on_live_objects w st :
  tracks st -> nested (log st) ->
  holds on_live_objects (log st) = true ->
  holds on_live_objects (log (snd (cleanup w st))) = true.
Proof.
  intros [Hv Hr] Hn Hh.
  pose proof (Hv BrowserContext) as Hc.
  pose proof (Hv Browser) as Hb.
  pose proof (Hv Playwright) as Hp. clear Hv.
  destruct st as [p b c lg0]. unfold var_of in Hc, Hb, Hp.
  cbn [pw browser context log] in *. unfold nested in Hn.
  destruct (acquired BrowserContext lg0) eqn:Ac;
    destruct (acquired Browser lg0) eqn:Ab;
    destruct (acquired Playwright lg0) eqn:Ap;
    try discriminate; subst p b c;
    unfold cleanup, bind, read, if_set, context_close, browser_close, pw_stop,
      call, ret, record; cbn;
    repeat match goal with
      | |- context [raises w ?l ?o] =>
          let E := fresh "E" in destruct (raises w l o) eqn:E; cbn
      end;
    unfold on_live_objects, live, release_attempted; cbn [requires forallb];
    rewrite ?release_calls_cons, ?acquired_cons, ?Hr; cbn;
    rewrite ?Ac, ?Ab, ?Ap; cbn; exact Hh.
Qed.

(** X12: every call is made on a live object: in every run, whenever a
    call or read is made, the object it is made on and the objects that
    one lives in (context, browser, Playwright session) were acquired
    before and no release of them has been called yet.  Nothing is used
    before it is acquired or after it is released. *)
Theorem calls_on_live_objects (w : world) (s : script) :
  holds on_live_objects (final_log w s) = true.
Proof.
  rewrite final_log_plan. unfold run_plan, try_finally.
  pose proof (body_tracks w (plan_of s)) as Ht.
  pose proof (nested_body w (plan_of s)) as Hn.
  pose proof (body_on_live_objects w (plan_of s)) as Hh.
  destruct (body (plan_of s) w initial) as [r st1]; cbn [snd] in *.
  pose proof (cleanup_on_live_objects w st1 Ht Hn Hh) as Hc.
  destruct (cleanup w st1) as [[u|e] st2]; cbn [snd] in *; exact Hc.
Qed.

(** * The command sequence and the point where a run stops *)

Lemma emits_body w p : emits w (body p) (plan_commands p).
Proof.
  unfold body, prologue, plan_commands.
  eapply emits_eq.
  - apply emits_acquire. intros c. apply emits_open_page. intros page.
    apply emits_interact. apply emits_verify.
  - reflexivity.
Qed.

Lemma commands_cleanup evs lg :
  Forall from_cleanup evs -> commands (evs ++ lg) = commands lg.
Proof.
  induction 1 as [|e evs He _ IH]; [reflexivity|].
  cbn [app]. rewrite commands_cons, IH. destruct He; cbn; apply app_nil_r.
Qed.

Lemma from_cleanup_release e : from_cleanup e -> is_release_event e = true.
Proof. destruct 1; reflexivity. Qed.

Lemma no_release_calls_no_release_event lg e :
  release_calls lg = [] -> In e lg -> is_release_event e = false.
Proof.
  intros Hr Hin. unfold is_release_event.
  destruct (release_call e) as [c|] eqn:E; [|reflexivity].
  assert (Hc : In c (release_calls lg)).
  { apply choose_In. exists e. rewrite <- in_rev. split; assumption. }
  rewrite Hr in Hc. destruct Hc.
Qed.

(** A body that was not disturbed ended normally. *)
Lemma undisturbed_body_ok w p :
  body_undisturbed (log (snd (run_plan p w initial))) = true ->
  fst (body p w initial) = Ok tt.
Proof.
  intros H.
  destruct (run_plan_outcome w p) as (evs & Hlog & _).
  rewrite Hlog in H. unfold body_undisturbed in H.
  rewrite forallb_app in H. apply andb_prop in H as [_ H].
  destruct (body_tracks w p) as [_ Hr].
  pose proof (blames_body w p initial) as Hb.
  destruct (fst (body p w initial)) as [[]|e]; [reflexivity|].
  specialize (Hb eq_refl). rewrite forallb_forall in H.
  assert (Hall : forallb harmless (log (snd (body p w initial))) = true).
  { apply forallb_forall. intros ev Hin. specialize (H ev Hin).
    rewrite (no_release_calls_no_release_event _ _ Hr Hin), orb_false_r in H.
    exact H. }
  congruence.
Qed.

(** The commands of a run are an initial part of the plan's commands,
    and all of them unless a statement of the [try] body failed. *)
Lemma commands_performed w p :
  is_prefix (commands (log (snd (run_plan p w initial)))) (plan_commands p)
  /\ (body_undisturbed (log (snd (run_plan p w initial))) = true ->
      commands (log (snd (run_plan p w initial))) = plan_commands p).
Proof.
  destruct (run_plan_outcome w p) as (evs & Hlog & Hev & _).
  destruct (emits_body w p initial) as (xs & Hc & Hpre & Hok).
  change (commands (log initial)) with (@nil op) in Hc. cbn [app] in Hc.
  split.
  - rewrite Hlog, (commands_cleanup _ _ Hev), Hc. exact Hpre.
  - intros H. pose proof (undisturbed_body_ok w p H) as Hb.
    rewrite Hlog, (commands_cleanup _ _ Hev), Hc. apply Hok. rewrite Hb. reflexivity.
Qed.

Lemma from_cleanup_not_body rel ev :
  Forall from_cleanup rel -> In ev rel -> is_release_event ev = true.
Proof.
  intros H Hin. rewrite Forall_forall in H. apply from_cleanup_release, H, Hin.
Qed.

(** A harmful event of the [try] body ends the body: nothing follows it
    but release calls, and the body raises what the event explains. *)
Lemma harmful_event_is_last w p ev :
  In ev (log (snd (run_plan p w initial))) ->
  harmless ev = false ->
  is_release_event ev = false ->
  exists releases before e,
    log (snd (run_plan p w initial)) = releases ++ ev :: before
    /\ Forall from_cleanup releases
    /\ raised_by (plan_verdict p) ev = Some e
    /\ (release_raised (log (snd (run_plan p w initial))) = false ->
        fst (run_plan p w initial) = Raised e).
Proof.
  intros Hin Hharm Hbody.
  destruct (run_plan_outcome w p) as (evs & Hlog & Hev & Hsame & _).
  rewrite Hlog in Hin. apply in_app_or in Hin as [Hin|Hin].
  { rewrite (from_cleanup_not_body _ _ Hev Hin) in Hbody. discriminate. }
  pose proof (stops_body w p) as Hs.
  destruct (fst (body p w initial)) as [u|e] eqn:Eb; cbn in Hs.
  - rewrite forallb_forall in Hs. rewrite (Hs _ Hin) in Hharm. discriminate.
  - destruct Hs as (ev' & lg & Hlg & Hh & Hby). rewrite Hlg in Hin.
    destruct Hin as [->|Hin].
    + exists evs, lg, e. rewrite Hlog, Hlg.
      split; [reflexivity|split; [exact Hev|split; [exact Hby|]]].
      intros Hrel. rewrite release_raised_app in Hrel.
      apply orb_false_elim in Hrel as [Hrel _]. rewrite (Hsame Hrel). reflexivity.
    + rewrite forallb_forall in Hh. rewrite (Hh _ Hin) in Hharm. discriminate.
Qed.

(** ** C2: the procedure *)

(** C2 as stated fails: the scripts do not perform one identical
    sequence of clicks and fills.  A run of TC016 scrolls with the mouse
    wheel, which is neither a click nor a fill on a located element; a
    run of TC014 submits the login form three times and issues 39
    commands where a run of TC005 submits it once and issues 18. *)
Lemma scripts_not_identical :
  existsb is_wheel (commands (final_log calm TC016)) = true
  /\ List.length (filter (is_click_on continue_button) (commands (final_log calm TC014))) = 3%nat
  /\ List.length (filter (is_click_on continue_button) (commands (final_log calm TC005))) = 1%nat
  /\ List.length (commands (final_log calm TC014)) = 39%nat
  /\ List.length (commands (final_log calm TC005)) = 18%nat.
Proof. repeat split; vm_compute; reflexivity. Qed.

Lemma procedure_is_script_commands s : procedure s = script_commands s.
Proof. destruct s; reflexivity. Qed.

(** C2, amended: every script performs its fixed procedure in order:
    open the browser, a context and a page; navigate to the fixed
    address; authenticate with the same four steps; perform its own
    feature steps; check the visibility of its own texts.  A run issues
    an initial part of it, and all of it unless a statement of the [try]
    body fails.  The first three phases are the same for the four
    scripts.  The feature steps are pauses of 3000 ms, clicks and fills
    on first matches of XPath locators and, in TC016 only, a mouse-wheel
    scroll; the checks are visibility checks of texts; both differ
    between any two scripts. *)
Theorem procedure_performed (w : world) (s : script) :
  is_prefix (commands (final_log w s)) (procedure s)
  /\ (body_undisturbed (final_log w s) = true ->
      commands (final_log w s) = procedure s)
  /\ forallb is_feature_command (feature_phase s) = true
  /\ existsb is_wheel (feature_phase s)
     = match s with TC016 => true | _ => false end
  /\ assert_phase s <> []
  /\ forallb is_text_check (assert_phase s) = true
  /\ (forall s', s' <> s ->
        feature_phase s' <> feature_phase s /\ assert_phase s' <> assert_phase s).
Proof.
  rewrite final_log_plan, procedure_is_script_commands. unfold script_commands.
  destruct (commands_performed w (plan_of s)) as [Hpre Hall].
  split; [exact Hpre|split; [exact Hall|]].
  split; [destruct s; reflexivity|].
  split; [destruct s; reflexivity|].
  split; [destruct s; discriminate|].
  split; [destruct s; reflexivity|].
  intros s' Hne. destruct s, s'; try (exfalso; apply Hne; reflexivity);
    split; discriminate.
Qed.

Lemma procedure_performed_witness :
  body_undisturbed (final_log waits_time_out TC016) = true
  /\ commands (final_log waits_time_out TC016) = procedure TC016.
Proof.
  split; [vm_compute; reflexivity|].
  apply (procedure_performed waits_time_out TC016). vm_compute; reflexivity.
Defined.

(** ** C5: timeouts *)

Lemma holds_impl (chk1 chk2 : event -> list event -> bool) lg :
  (forall e past, chk1 e past = true -> chk2 e past = true) ->
  holds chk1 lg = true -> holds chk2 lg = true.
Proof.
  intros Himp. induction lg as [|e past IH]; [reflexivity|].
  cbn [holds]. intros H. apply andb_prop in H as [H1 H2].
  rewrite (Himp _ _ H1), (IH H2). reflexivity.
Qed.

Lemma holds_and (c : event -> bool) (chk : event -> list event -> bool) lg :
  forallb c lg = true ->
  holds chk lg = true ->
  holds (fun e past => c e && chk e past) lg = true.
Proof.
  induction lg as [|e past IH]; [reflexivity|].
  cbn [forallb holds]. intros Hc Hh.
  apply andb_prop in Hc as [Hc1 Hc2]. apply andb_prop in Hh as [Hh1 Hh2].
  rewrite Hc1, Hh1, (IH Hc2 Hh2). reflexivity.
Qed.

Lemma timing_ok_bounded e past :
  timing_ok e past = true -> bounded_unless_untimed e past = true.
Proof.
  destruct e as [o r|ps|p fs]; [|reflexivity..].
  destruct o; try reflexivity.
  cbn. unfold is_bounded, bound. intros H. apply andb_prop in H as [H _].
  rewrite H. reflexivity.
Qed.


Lemma timing_ok_fixed e past :
  fixed_sleep e && timing_ok e past = true -> bound_is_fixed e past = true.
Proof.
  intros H. apply andb_prop in H as [Hs Ht].
  destruct e as [o r|ps|p fs]; [|reflexivity..].
  destruct o; try reflexivity; unfold bound_is_fixed, bound; cbn in Hs, Ht.
  - apply Z.eqb_eq in Ht. subst. reflexivity.
  - apply Z.eqb_eq in Ht. subst. reflexivity.
  - apply Z.eqb_eq in Ht. subst. reflexivity.
  - apply Z.eqb_eq in Ht. subst. reflexivity.
  - apply andb_prop in Ht as [Ht _]. apply Z.eqb_eq in Ht. subst. reflexivity.
  - destruct (default_timeout_set past); reflexivity.
  - apply orb_prop in Ht as [Ht|Ht]; apply Z.eqb_eq in Ht; subst; reflexivity.
  - apply Z.eqb_eq in Hs. subst. reflexivity.
Qed.

Lemma run_sleeps_fixed w p :
  forallb fixed_sleep (log (snd (run_plan p w initial))) = true.
Proof.
  apply forallb_forall. intros e Hin. apply log_emitted in Hin.
  destruct Hin as [e Hx|e Hx|st e Hst Hx|e Hx|e Hx]; destruct Hx; reflexivity.
Qed.



(** ** C8: the command sequence and the page *)

Lemma run_plan_fail_fast w p :
  exists releases body_log,
    log (snd (run_plan p w initial)) = releases ++ body_log
    /\ Forall from_cleanup releases
    /\ release_calls body_log = []
    /\ forallb harmless (tl body_log) = true.
Proof.
  destruct (run_plan_outcome w p) as (evs & Hlog & Hev & _).
  exists evs, (log (snd (body p w initial))).
  split; [exact Hlog|split; [exact Hev|split; [apply body_tracks|]]].
  pose proof (stops_body w p) as Hs.
  destruct (fst (body p w initial)) as [u|e]; cbn in Hs.
  - destruct (log (snd (body p w initial))) as [|ev lg]; [reflexivity|].
    cbn in Hs. apply andb_prop in Hs as [_ Hs]. exact Hs.
  - destruct Hs as (ev & lg & -> & Hlg & _). exact Hlg.
Qed.

Lemma run_plan_waits_follow_frames w p :
  waits_follow_frames (log (snd (run_plan p w initial))).
Proof.
  destruct (run_plan_outcome w p) as (evs & Hlog & Hev & _).
  destruct (frames_cleanup evs (log (snd (body p w initial))) Hev) as [El Ew].
  destruct (body_waits_follow_frames w p) as [Hb _].
  rewrite Hlog. unfold waits_follow_frames, frames_unread. rewrite El, Ew. exact Hb.
Qed.

Lemma run_follows_script w s : follows_script s (final_log w s).
Proof.
  unfold follows_script, script_commands. rewrite final_log_plan.
  destruct (commands_performed w (plan_of s)) as [Hpre Hall].
  split; [exact Hpre|split; [exact Hall|]].
  split; [apply run_plan_fail_fast|apply run_plan_waits_follow_frames].
Qed.

(** C8 as stated fails: the calls a script issues do depend on what the
    page holds.  TC005 waits once for each frame that [page.frames]
    lists: on a page without frames and on a page with an embedded
    frame both runs end normally, no operation fails, and yet their
    eighth calls differ. *)
Lemma calls_depend_on_frames :
  outcome frameless TC005 = Ok tt
  /\ outcome two_frames TC005 = Ok tt
  /\ nth_error (calls (final_log frameless TC005)) 7
     = Some (WaitForTimeout 0%nat 3000)
  /\ nth_error (calls (final_log two_frames TC005)) 7
     = Some (FrameWaitForLoadState 0%nat "domcontentloaded" 3000).
Proof. repeat split; vm_compute; reflexivity. Qed.

(** C8, amended: the waits on the frames of the page apart, the commands
    a script issues (the address, the locators, the values filled, the
    timeouts, their order) are a fixed sequence that does not depend on
    the world.  Every run issues an initial part of it and stops at the
    first statement of the [try] body that fails, after which only
    release calls follow; it issues all of it when none fails.  So two
    runs in which no statement fails issue the same commands, and of
    any two runs one issues an initial part of what the other issues.
    The waits on frames follow the frames that [page.frames] listed:
    their number depends on the page. *)
Theorem commands_fixed_up_to_failure (s : script) (w1 w2 : world) :
  follows_script s (final_log w1 s)
  /\ follows_script s (final_log w2 s)
  /\ (body_undisturbed (final_log w1 s) = true ->
      body_undisturbed (final_log w2 s) = true ->
      commands (final_log w1 s) = commands (final_log w2 s))
  /\ (is_prefix (commands (final_log w1 s)) (commands (final_log w2 s))
      \/ is_prefix (commands (final_log w2 s)) (commands (final_log w1 s))).
Proof.
  pose proof (run_follows_script w1 s) as H1.
  pose proof (run_follows_script w2 s) as H2.
  split; [exact H1|split; [exact H2|]].
  destruct H1 as (P1 & A1 & _). destruct H2 as (P2 & A2 & _).
  split.
  - intros U1 U2. rewrite (A1 U1), (A2 U2). reflexivity.
  - eapply is_prefix_comparable; eassumption.
Qed.

Lemma commands_fixed_up_to_failure_witness :
  body_undisturbed (final_log frameless TC020) = true
  /\ body_undisturbed (final_log waits_time_out TC020) = true
  /\ commands (final_log frameless TC020) = commands (final_log waits_time_out TC020).
Proof.
  split; [vm_compute; reflexivity|].
  split; [vm_compute; reflexivity|].
  apply (commands_fixed_up_to_failure TC020 frameless waits_time_out);
    vm_compute; reflexivity.
Defined.

(** ** C3: a failed assertion *)

Lemma assertion_failed_In lg :
  assertion_failed lg = true ->
  exists l timeout x,
    In (Called (ExpectVisible l timeout) (Some x)) lg
    /\ isinstance_AssertionError x = true.
Proof.
  unfold assertion_failed. intros H. apply existsb_exists in H as (e & Hin & He).
  destruct e as [[] [x|]| |]; try discriminate.
  eexists _, _, x. split; [exact Hin|exact He].
Qed.

(** A check that raised ends the run: the script's own message replaces
    a library AssertionError where the script has one, anything else
    leaves the script as it is. *)
Lemma failed_check_outcome w p l timeout x :
  In (Called (ExpectVisible l timeout) (Some x)) (log (snd (run_plan p w initial))) ->
  release_raised (log (snd (run_plan p w initial))) = false ->
  fst (run_plan p w initial)
  = Raised match failure_message (plan_verdict p) with
           | Some message => if isinstance_AssertionError x
                             then AssertionError message else x
           | None => x
           end.
Proof.
  intros Hin Hrel.
  destruct (harmful_event_is_last w p _ Hin eq_refl eq_refl)
    as (releases & before & e & _ & _ & Hby & Hout).
  rewrite (Hout Hrel). cbn in Hby.
  destruct (failure_message (plan_verdict p)) as [message|];
    [destruct (isinstance_AssertionError x)|]; congruence.
Qed.

(** C3, amended: the handling is not uniform.  TC005, TC016 and TC020
    wrap their final assertion: when it ends with the library's
    AssertionError, and no release call of the cleanup block raises
    afterwards, the script raises an AssertionError with its own
    message, which no other script uses.  TC014, and only TC014, has no
    message of its own: when one of its assertions fails, and no release
    call raises afterwards, the exception the failed check raised, the
    library's AssertionError, leaves the script unchanged. *)
Theorem assertion_failure_outcome (w : world) (s : script) :
  (failure_message (final_verdict s) = None <-> s = TC014)
  /\ (assertion_failed (final_log w s) = true ->
      release_raised (final_log w s) = false ->
      match failure_message (final_verdict s) with
      | Some message =>
          outcome w s = Raised (AssertionError message)
          /\ forall s', s' <> s -> failure_message (final_verdict s') <> Some message
      | None =>
          (exists l timeout x,
             In (Called (ExpectVisible l timeout) (Some x)) (final_log w s)
             /\ isinstance_AssertionError x = true)
          /\ forall l timeout x,
               In (Called (ExpectVisible l timeout) (Some x)) (final_log w s) ->
               outcome w s = Raised x
      end).
Proof.
  split.
  { destruct s; split; intros H; try reflexivity; discriminate. }
  rewrite final_log_plan, outcome_plan. intros Hfail Hrel.
  destruct (assertion_failed_In _ Hfail) as (l & timeout & x & Hin & Hx).
  pose proof (failed_check_outcome w (plan_of s) l timeout x Hin Hrel) as Hout.
  change (plan_verdict (plan_of s)) with (final_verdict s) in Hout.
  destruct (failure_message (final_verdict s)) as [message|] eqn:Em.
  - rewrite Hx in Hout. split; [exact Hout|].
    intros s' Hne H. destruct s, s'; try congruence; cbn in Em, H;
      try discriminate; rewrite <- Em in H; discriminate.
  - split; [exists l, timeout, x; split; assumption|].
    intros l' timeout' x' Hin'.
    pose proof (failed_check_outcome w (plan_of s) l' timeout' x' Hin' Hrel) as Hout'.
    change (plan_verdict (plan_of s)) with (final_verdict s) in Hout'.
    rewrite Em in Hout'. exact Hout'.
Qed.

Lemma assertion_failure_outcome_witness :
  outcome text_never_visible TC020
  = Raised (AssertionError "Test failed: The document did not become searchable within 2 minutes after upload as required by the test plan.")
  /\ outcome text_never_visible TC014
     = Raised (AssertionError "Locator expected to be visible").
Proof.
  split.
  - apply (proj2 (assertion_failure_outcome text_never_visible TC020));
      vm_compute; reflexivity.
  - pose proof (proj2 (assertion_failure_outcome text_never_visible TC014)) as H.
    assert (H1 : assertion_failed (final_log text_never_visible TC014) = true)
      by (vm_compute; reflexivity).
    assert (H2 : release_raised (final_log text_never_visible TC014) = false)
      by (vm_compute; reflexivity).
    apply (proj2 (H H1 H2) (first (locate 1%nat "text=Welcome back")) 30000).
    vm_compute. repeat (first [left; reflexivity | right]).
Defined.

(** ** C4: load-state waits that raise *)

Section GoesOn.
Variable w : world.

Lemma goes_on_bind {A} (m : M A) (f : A -> M unit) :
  (forall a, hoare w (fun _ => True) (f a) goes_on) ->
  hoare w (fun _ => True) (bind m f) goes_on.
Proof.
  intros H st _. unfold bind.
  destruct (m w st) as [[a|e] st1]; cbn.
  - apply H; exact I.
  - intros ?; discriminate.
Qed.

Lemma goes_on_sleep : hoare w (fun _ => True) (asyncio_sleep 5) goes_on.
Proof.
  intros st _. unfold asyncio_sleep, call, goes_on. cbn.
  destruct (raises w (log st) (Sleep 5)); [discriminate|reflexivity].
Qed.

Lemma goes_on_expect_all frame checks :
  hoare w (fun _ => True) (expect_all frame checks (asyncio_sleep 5)) goes_on.
Proof.
  induction checks as [|[sel timeout] rest IH]; cbn [expect_all].
  - apply goes_on_sleep.
  - apply goes_on_bind. intros _. exact IH.
Qed.

Lemma goes_on_verify v c : hoare w (fun _ => True) (verify v c) goes_on.
Proof.
  unfold verify. apply goes_on_bind. intros pages.
  apply goes_on_bind. intros frame.
  destruct v as [sel timeout message|checks].
  - apply goes_on_bind. intros _. apply goes_on_sleep.
  - apply goes_on_expect_all.
Qed.

Lemma goes_on_interact c page steps k :
  hoare w (fun _ => True) k goes_on ->
  hoare w (fun _ => True) (interact c page steps k) goes_on.
Proof.
  intros Hk. induction steps as [|[sel|sel value|dx dy] rest IH]; cbn [interact].
  - exact Hk.
  - do 4 (apply goes_on_bind; intros ?). exact IH.
  - do 4 (apply goes_on_bind; intros ?). exact IH.
  - apply goes_on_bind; intros ?. exact IH.
Qed.

Lemma goes_on_body p : hoare w (fun _ => True) (body p) goes_on.
Proof.
  unfold body, prologue, acquire, open_page.
  do 6 (apply goes_on_bind; intros ?).
  do 6 (apply goes_on_bind; intros ?).
  apply goes_on_interact, goes_on_verify.
Qed.
End GoesOn.

(** The [try] body never ends on a swallowed wait. *)
Lemma body_not_left_by_swallowed_wait w p ev lg :
  log (snd (body p w initial)) = ev :: lg -> swallowed ev = false.
Proof.
  intros Hlog.
  pose proof (goes_on_body w p initial I) as Hgo.
  pose proof (stops_body w p) as Hs.
  destruct (fst (body p w initial)) as [[]|e]; cbn in Hs.
  - specialize (Hgo eq_refl). rewrite Hlog in Hgo. exact Hgo.
  - destruct Hs as (ev' & lg' & Hlg & _ & Hby). rewrite Hlog in Hlg.
    injection Hlg as <- _.
    destruct ev as [o [x|]| |]; try reflexivity.
    cbn in *. destruct (is_load_wait o && isinstance_Error x)%bool;
      [discriminate|reflexivity].
Qed.

Lemma swallowed_not_release ev : swallowed ev = true -> is_release_event ev = false.
Proof.
  destruct ev as [[] [x|]| |]; try discriminate; reflexivity.
Qed.

(** Directly after a swallowed wait comes another event of the body. *)
Lemma swallowed_wait_followed w p after ev before :
  log (snd (run_plan p w initial)) = after ++ ev :: before ->
  swallowed ev = true ->
  exists after' next, after = after' ++ [next] /\ is_release_event next = false.
Proof.
  intros Hsplit Hsw.
  destruct (run_plan_outcome w p) as (evs & Hlog & Hev & _).
  destruct (body_tracks w p) as [_ Hr].
  rewrite Hlog in Hsplit. apply app_eq_app in Hsplit as [l [[E1 E2]|[E1 E2]]].
  - destruct l as [|x l].
    + cbn in E2. symmetry in E2.
      rewrite (body_not_left_by_swallowed_wait w p _ _ E2) in Hsw. discriminate.
    + cbn in E2. injection E2 as <- _.
      assert (Hin : In ev evs) by (rewrite E1; apply in_elt).
      pose proof (from_cleanup_not_body _ _ Hev Hin) as Hc.
      rewrite (swallowed_not_release _ Hsw) in Hc. discriminate.
  - destruct (exists_last (l := l)) as (l' & next & ->).
    + intros ->. cbn in E2.
      rewrite (body_not_left_by_swallowed_wait w p _ _ E2) in Hsw. discriminate.
    + exists (evs ++ l'), next. split; [rewrite E1, app_assoc; reflexivity|].
      apply (no_release_calls_no_release_event _ _ Hr).
      rewrite E2. apply in_or_app. left. apply in_or_app. right. left. reflexivity.
Qed.

(** The same happens with the wait on a frame: in TC014, when the wait
    for a frame's load state ends with an exception that is not a
    Playwright error, the exception leaves the script and no interaction
    step follows. *)
Lemma frame_wait_interruption_propagates :
  outcome frame_wait_interrupted TC014 = Raised (OtherException "CancelledError")
  /\ commands (final_log frame_wait_interrupted TC014) = open_phase ++ navigate_phase.
Proof. split; vm_compute; reflexivity. Qed.

(** C4, amended: a Playwright error ([async_api.Error], which includes
    its timeout subclass) raised by the load-state wait of the page or
    of a frame is caught and ignored: the script goes on with its next
    statement, and a run in which nothing else goes wrong (every other
    call returns and the page list is never empty) ends normally, having
    issued its whole command sequence.  An exception of any other class
    raised by such a wait, of the page or of a frame, is not caught: it
    is the last event of the [try] body, nothing follows it but the
    release calls of the cleanup block, and, unless one of these raises,
    the script ends with that exception. *)
Theorem load_wait_errors (w : world) (s : script) :
  (forallb harmless (final_log w s) = true ->
   outcome w s = Ok tt /\ commands (final_log w s) = script_commands s)
  /\ (forall after ev before,
        final_log w s = after ++ ev :: before ->
        swallowed ev = true ->
        exists after' next,
          after = after' ++ [next] /\ is_release_event next = false)
  /\ (forall o x,
        is_load_wait o = true ->
        isinstance_Error x = false ->
        In (Called o (Some x)) (final_log w s) ->
        exists releases before,
          final_log w s = releases ++ Called o (Some x) :: before
          /\ Forall from_cleanup releases
          /\ (release_raised (final_log w s) = false -> outcome w s = Raised x)).
Proof.
  rewrite final_log_plan, outcome_plan. split; [|split].
  - intros H.
    assert (Hok : fst (run_plan (plan_of s) w initial) = Ok tt).
    { pose proof (blames_run_plan w (plan_of s) initial) as Hb.
      destruct (fst (run_plan (plan_of s) w initial)) as [[]|e]; [reflexivity|].
      rewrite (Hb eq_refl) in H. discriminate. }
    split; [exact Hok|]. apply commands_run_plan, Hok.
  - apply swallowed_wait_followed.
  - intros o x Ho Hx Hin.
    assert (Hharm : harmless (Called o (Some x)) = false).
    { cbn. rewrite Ho, Hx. reflexivity. }
    assert (Hbody : is_release_event (Called o (Some x)) = false).
    { destruct o; try discriminate; reflexivity. }
    destruct (harmful_event_is_last w (plan_of s) _ Hin Hharm Hbody)
      as (releases & before & e & Hlog & Hev & Hby & Hout).
    exists releases, before. split; [exact Hlog|split; [exact Hev|]].
    intros Hrel. rewrite (Hout Hrel). cbn in Hby. rewrite Ho, Hx in Hby.
    cbn in Hby. destruct o; try discriminate; congruence.
Qed.

Lemma load_wait_errors_witness :
  (outcome waits_time_out TC020 = Ok tt
   /\ commands (final_log waits_time_out TC020) = script_commands TC020)
  /\ outcome frame_wait_interrupted TC014 = Raised (OtherException "CancelledError").
Proof.
  split.
  - apply (proj1 (load_wait_errors waits_time_out TC020)). vm_compute; reflexivity.
  - destruct (proj2 (proj2 (load_wait_errors frame_wait_interrupted TC014))
                (FrameWaitForLoadState 7%nat "domcontentloaded" 3000)
                (OtherException "CancelledError") eq_refl eq_refl)
      as (releases & before & _ & _ & H).
    + vm_compute. repeat (first [left; reflexivity | right]).
    + apply H. vm_compute; reflexivity.
Defined.

(** ** What the scripts type, and where *)

Lemma run_types_credentials w p :
  forallb step_fills_credentials (plan_steps p) = true ->
  forallb types_credential (log (snd (run_plan p w initial))) = true.
Proof.
  intros Hs. rewrite forallb_forall in Hs.
  apply forallb_forall. intros e Hin. apply log_emitted in Hin.
  destruct Hin as [e Hx|e Hx|st e Hst Hx|e Hx|e Hx]; destruct Hx; try reflexivity.
  exact (Hs _ Hst).
Qed.

(** X8: a script types nothing but the four fixed credentials, each into
    its own field: in every run, every fill puts an e-mail address into
    the first match of the e-mail input's XPath locator, or a password
    into the first match of the password input's, on the page that was
    last in [context.pages] when the script read it just before the
    pause that precedes the fill. *)
Theorem fills_go_to_credential_fields (w : world) (s : script) :
  holds fills_credential_field (final_log w s) = true.
Proof.
  rewrite final_log_plan.
  apply (holds_and types_credential targets_last_page).
  - apply run_types_credentials. destruct s; reflexivity.
  - apply targeted_run_plan. destruct s; reflexivity.
Qed.

(** ** The page the script opened *)

Lemma opened_page_cons w e lg :
  match e with Called NewPage None => False | _ => True end ->
  opened_page w (e :: lg) = opened_page w lg.
Proof. destruct e as [[] [x|]| |]; intros H; try reflexivity; destruct H. Qed.

Lemma last_page_read_cons e lg :
  match e with PagesRead _ => False | _ => True end ->
  last_page_read (e :: lg) = last_page_read lg.
Proof. destruct e; intros H; try reflexivity; destruct H. Qed.

Lemma right_page_free w e past :
  page_of_event e = None -> located_on e = None -> on_right_page w e past = true.
Proof. unfold on_right_page. intros -> ->. reflexivity. Qed.

Lemma right_page_opened w pg e past :
  page_of_event e = Some pg -> opened_page w past = Some pg ->
  on_right_page w e past = true.
Proof. unfold on_right_page. intros -> ->. apply Nat.eqb_refl. Qed.

Lemma right_page_located w frame e past :
  page_of_event e = None -> located_on e = Some frame ->
  last_page_read past = Some frame ->
  on_right_page w e past = true.
Proof. unfold on_right_page. intros -> -> ->. apply Nat.eqb_refl. Qed.

#[local] Arguments on_right_page : simpl never.
#[local] Arguments opened_page : simpl never.
#[local] Arguments last_page_read : simpl never.

Lemma not_opened_absorbs w e :
  page_of_event e = None -> located_on e = None ->
  absorbs (on_log (fun lg => holds (on_right_page w) lg = true)) e.
Proof.
  intros H1 H2 st Hst. unfold on_log in *. cbn [record log holds].
  rewrite Hst, (right_page_free w e _ H1 H2). reflexivity.
Qed.

Lemma opened_absorbs w pg e :
  match e with Called NewPage None => False | _ => True end ->
  match page_of_event e with Some q => q = pg | None => located_on e = None end ->
  absorbs (on_log (on_opened_page w pg)) e.
Proof.
  intros Hn He st [Hh Ho]. unfold on_log, on_opened_page. cbn [record log holds].
  split; [|rewrite (opened_page_cons w e _ Hn); exact Ho].
  rewrite Hh, andb_true_r.
  destruct (page_of_event e) as [q|] eqn:Ep.
  - subst q. apply right_page_opened with (pg := pg); assumption.
  - apply right_page_free; assumption.
Qed.

Lemma right_page_do_step w c page s :
  preserves w (on_log (on_opened_page w page)) (do_step c page s).
Proof.
  destruct s as [sel|sel value|dx dy]; cbn [do_step].
  - intros st Hst. unfold bind, context_pages, subscript_last. cbn [fst snd].
    assert (H1 : on_log (on_opened_page w page)
                   (record (PagesRead (pages_of w (log st))) st)).
    { apply opened_absorbs; [exact I|reflexivity|exact Hst]. }
    destruct (rev (pages_of w (log st))) as [|frame others] eqn:Er; [exact H1|].
    cbn [ret]. unfold wait_for_timeout, click, call. cbn [fst snd].
    set (st1 := record (PagesRead (pages_of w (log st))) st) in *.
    assert (H2 : forall r, on_log (on_opened_page w page)
                   (record (Called (WaitForTimeout page 3000) r) st1)).
    { intros r. apply opened_absorbs; [destruct r; exact I|reflexivity|exact H1]. }
    destruct (raises w (log st1) (WaitForTimeout page 3000)) as [x|]; [apply H2|].
    cbn [fst snd]. specialize (H2 None). destruct H2 as [Hh Ho].
    cbn [record log holds] in Hh, Ho.
    unfold on_log, on_opened_page. cbn [record log holds].
    split; [|rewrite opened_page_cons; [exact Ho|exact I]].
    rewrite Hh, andb_true_r.
    apply right_page_located with (frame := frame); try reflexivity.
    rewrite last_page_read_cons by exact I.
    unfold last_page_read. cbn [st1 record log]. rewrite Er. reflexivity.
  - intros st Hst. unfold bind, context_pages, subscript_last. cbn [fst snd].
    assert (H1 : on_log (on_opened_page w page)
                   (record (PagesRead (pages_of w (log st))) st)).
    { apply opened_absorbs; [exact I|reflexivity|exact Hst]. }
    destruct (rev (pages_of w (log st))) as [|frame others] eqn:Er; [exact H1|].
    cbn [ret]. unfold wait_for_timeout, fill, call. cbn [fst snd].
    set (st1 := record (PagesRead (pages_of w (log st))) st) in *.
    assert (H2 : forall r, on_log (on_opened_page w page)
                   (record (Called (WaitForTimeout page 3000) r) st1)).
    { intros r. apply opened_absorbs; [destruct r; exact I|reflexivity|exact H1]. }
    destruct (raises w (log st1) (WaitForTimeout page 3000)) as [x|]; [apply H2|].
    cbn [fst snd]. specialize (H2 None). destruct H2 as [Hh Ho].
    cbn [record log holds] in Hh, Ho.
    unfold on_log, on_opened_page. cbn [record log holds].
    split; [|rewrite opened_page_cons; [exact Ho|exact I]].
    rewrite Hh, andb_true_r.
    apply right_page_located with (frame := frame); try reflexivity.
    rewrite last_page_read_cons by exact I.
    unfold last_page_read. cbn [st1 record log]. rewrite Er. reflexivity.
  - apply preserves_call. intros r.
    apply opened_absorbs; [destruct r; exact I|reflexivity].
Qed.

Lemma right_page_verify w page v c :
  hoare w (on_log (on_opened_page w page)) (verify v c)
    (fun _ st => holds (on_right_page w) (log st) = true).
Proof.
  intros st Hst. unfold verify, bind, context_pages, subscript_last. cbn [fst snd].
  set (st1 := record (PagesRead (pages_of w (log st))) st).
  assert (H1 : on_log (on_opened_page w page) st1).
  { apply opened_absorbs; [exact I|reflexivity|exact Hst]. }
  destruct (rev (pages_of w (log st))) as [|frame others] eqn:Er; [exact (proj1 H1)|].
  cbn [ret].
  set (I_f := on_log (fun lg => holds (on_right_page w) lg = true
                               /\ last_page_read lg = Some frame)).
  assert (Hf : I_f st1).
  { split; [exact (proj1 H1)|].
    unfold last_page_read. cbn [st1 record log]. rewrite Er. reflexivity. }
  assert (Hcheck : forall sel timeout r,
            absorbs I_f (Called (ExpectVisible (first (locate frame sel)) timeout) r)).
  { intros sel timeout r st' [Hh Hl]. split; cbn [record log holds].
    - rewrite Hh, andb_true_r.
      apply right_page_located with (frame := frame); [reflexivity|reflexivity|exact Hl].
    - rewrite last_page_read_cons by exact I. exact Hl. }
  assert (Hsleep : preserves w I_f (asyncio_sleep 5)).
  { apply preserves_call. intros r st' [Hh Hl]. split; cbn [record log holds].
    - rewrite Hh, andb_true_r. apply right_page_free; reflexivity.
    - rewrite last_page_read_cons by exact I. exact Hl. }
  assert (Hv : preserves w I_f
                 match v with
                 | Wrapped sel timeout message =>
                     try_except (expect_to_be_visible (first (locate frame sel)) timeout)
                       isinstance_AssertionError
                       (fun _ => raise (AssertionError message)) ;;
                     asyncio_sleep 5
                 | Plain checks => expect_all frame checks (asyncio_sleep 5)
                 end).
  { destruct v as [sel timeout message|checks].
    - apply preserves_bind; [|intros _; exact Hsleep].
      apply preserves_try_except.
      + apply preserves_call. intros r. apply Hcheck.
      + intros e. apply preserves_raise.
    - apply preserves_expect_all; [|exact Hsleep].
      intros sel timeout r _. apply Hcheck. }
  exact (proj1 (Hv st1 Hf)).
Qed.

Lemma body_on_right_page w p :
  holds (on_right_page w) (log (snd (body p w initial))) = true.
Proof.
  set (Q := fun (r : result unit) (st : state) =>
              holds (on_right_page w) (log st) = true).
  assert (H : hoare w (on_log (fun lg => holds (on_right_page w) lg = true))
                (body p) Q);
    [|apply (H initial); reflexivity].
  unfold body, prologue. apply hoare_acquire.
  { intros e He. apply not_opened_absorbs; destruct He; reflexivity. }
  { intros e st Hst. exact Hst. }
  intros c.
  apply hoare_open_page_staged
    with (I1 := fun pg => on_log (on_opened_page w pg))
         (I2 := fun pg (_ _ : list frame_id) => on_log (on_opened_page w pg))
         (I3 := fun pg => on_log (on_opened_page w pg)).
  - intros r. apply not_opened_absorbs; reflexivity.
  - intros x. apply not_opened_absorbs; reflexivity.
  - intros st Hst. unfold on_log, on_opened_page in *. cbn [record log holds].
    rewrite Hst. split; reflexivity.
  - intros pg r. apply opened_absorbs; [exact I|reflexivity].
  - intros pg r. apply opened_absorbs; [exact I|reflexivity].
  - intros pg fs st Hst. apply opened_absorbs; [exact I|reflexivity|exact Hst].
  - intros pg fs done f r st _ Hst.
    apply opened_absorbs; [exact I|reflexivity|exact Hst].
  - intros pg fs st Hst. exact Hst.
  - intros e st Hst. exact Hst.
  - intros pg e st Hst. exact (proj1 Hst).
  - intros pg fs done e st Hst. exact (proj1 Hst).
  - intros page. apply hoare_interact.
    + intros s _. apply right_page_do_step.
    + intros e st Hst. exact (proj1 Hst).
    + apply right_page_verify.
Qed.

Lemma right_page_cleanup w evs lg :
  Forall from_cleanup evs ->
  holds (on_right_page w) lg = true ->
  holds (on_right_page w) (evs ++ lg) = true.
Proof.
  induction 1 as [|e evs He _ IH]; intros H; [exact H|].
  cbn [app holds]. rewrite (IH H), andb_true_r.
  apply right_page_free; destruct He; reflexivity.
Qed.

(** X11: the script works on the page it opened: in every run, the
    navigation, the wait for the page's load state, the read of
    [page.frames], every pause and the mouse-wheel scroll are made on
    the page that [context.new_page()] returned, whereas every click,
    fill and visibility check acts on the last page of [context.pages]
    as the script read it last. *)
Theorem page_calls_on_opened_page (w : world) (s : script) :
  holds (on_right_page w) (final_log w s) = true.
Proof.
  rewrite final_log_plan.
  destruct (run_plan_outcome w (plan_of s)) as (evs & Hlog & Hev & _).
  rewrite Hlog. apply right_page_cleanup; [exact Hev|apply body_on_right_page].
Qed.
